(** * Burger racing: vehicle kinematics, checkpoint/lap tracking, sword pickup

    A shallow embedding of the state-carrying logic of
    - [BurgerVehicle] (handleInput, applyPhysics, update),
    - [RacingGame] (createTrack's checkpoints, checkCheckpoints, update),
    - [Sword] (update, checkCollision, collect, dispose).

    JavaScript numbers are modelled as real numbers: [Math.min], [Math.max],
    [Math.abs], [Math.sin], [Math.cos] and [Math.sqrt] are [Rmin], [Rmax],
    [Rabs], [sin], [cos] and [sqrt].  Rounding of IEEE doubles is not
    modelled.  Scene-graph, mesh, camera and DOM effects do not feed back
    into the fields modelled here and are left out; [Date.now()] and
    [Math.random()] enter as arguments. *)

From Stdlib Require Import Reals Lra Lia List Bool Arith ZArith.
Import ListNotations.
Open Scope R_scope.

(** ** The parts of [Math] and of three.js' [Vector3] the code calls *)

Module Math.

(** [Math.sign]: 1, -1 or 0. *)
Definition sign (x : R) : R :=
  if Rlt_dec 0 x then 1 else if Rlt_dec x 0 then -1 else 0.

End Math.

Module Three.

Record Vector3 : Type := mkVector3 { x : R; y : R; z : R }.

Definition distanceToSquared (a b : Vector3) : R :=
  let dx := x a - x b in
  let dy := y a - y b in
  let dz := z a - z b in
  dx * dx + dy * dy + dz * dz.

(** [a.distanceTo(b)] is [Math.sqrt(a.distanceToSquared(b))]. *)
Definition distanceTo (a b : Vector3) : R := sqrt (distanceToSquared a b).

End Three.

(** ** BurgerVehicle *)

Module BurgerVehicle.

Import Three.

(** What [handleInput] polls from the engine: whether the mobile controls
    are active, the joystick vector, and the eight keys it asks about. *)
Record EngineInput : Type := mkEngineInput {
  isMobileControlsActive : bool;
  joystickX : R;
  joystickY : R;
  keyW : bool; arrowUp : bool;
  keyS : bool; arrowDown : bool;
  keyA : bool; arrowLeft : bool;
  keyD : bool; arrowRight : bool
}.

Definition Rltb (a b : R) : bool := if Rlt_dec a b then true else false.

Definition accelerate (i : EngineInput) : bool :=
  if isMobileControlsActive i then Rltb (joystickY i) (-0.3)
  else keyW i || arrowUp i.

Definition brake (i : EngineInput) : bool :=
  if isMobileControlsActive i then Rltb 0.3 (joystickY i)
  else keyS i || arrowDown i.

Definition turnLeft (i : EngineInput) : bool :=
  if isMobileControlsActive i then Rltb (joystickX i) (-0.3)
  else keyA i || arrowLeft i.

Definition turnRight (i : EngineInput) : bool :=
  if isMobileControlsActive i then Rltb 0.3 (joystickX i)
  else keyD i || arrowRight i.

(** A keyboard sample with the four intents given directly. *)
Definition keys (acc brk left right : bool) : EngineInput :=
  mkEngineInput false 0 0 acc false brk false left false right false.

(** Fields that are initialised once and never assigned. *)
Definition maxSpeed : R := 0.3.
Definition acceleration : R := 0.008.
Definition deceleration : R := 0.01.
Definition turnSpeed : R := 0.03.

(** The mutable vehicle state. *)
Record t : Type := mk {
  position : Vector3;
  rotation : R;
  speed : R;
  currentTurn : R
}.

(** State right after the constructor. *)
Definition initial : t := mk (mkVector3 0 0.5 0) 0 0 0.

Definition handleInput (v : t) (i : EngineInput) : t :=
  (* Acceleration *)
  let speed' :=
    if accelerate i then Rmin (speed v + acceleration) maxSpeed
    else if brake i then
      Rmax (speed v - deceleration * 1.5) (- maxSpeed * 0.5)
    else if Rlt_dec 0 (speed v) then Rmax 0 (speed v - deceleration)
    else if Rlt_dec (speed v) 0 then Rmin 0 (speed v + deceleration)
    else speed v in
  (* Turning (only when moving) *)
  let currentTurn' :=
    if Rlt_dec 0.01 (Rabs speed') then
      if turnLeft i then Rmax (-1) (currentTurn v - turnSpeed)
      else if turnRight i then Rmin 1 (currentTurn v + turnSpeed)
      else if Rlt_dec 0 (currentTurn v) then
        Rmax 0 (currentTurn v - turnSpeed)
      else if Rlt_dec (currentTurn v) 0 then
        Rmin 0 (currentTurn v + turnSpeed)
      else currentTurn v
    else 0 in
  (* Apply turning to rotation *)
  let turnAmount := currentTurn' * Rabs speed' * 0.1 in
  mk (position v) (rotation v + turnAmount) speed' currentTurn'.

Definition boundary : R := 50.

Definition applyPhysics (v : t) : t :=
  let x1 := x (position v) + sin (rotation v) * speed v in
  let z1 := z (position v) + cos (rotation v) * speed v in
  let '(x2, s2) :=
    if Rlt_dec boundary (Rabs x1)
    then (Math.sign x1 * boundary, speed v * 0.5)
    else (x1, speed v) in
  let '(z2, s3) :=
    if Rlt_dec boundary (Rabs z1)
    then (Math.sign z1 * boundary, s2 * 0.5)
    else (z1, s2) in
  mk (mkVector3 x2 (y (position v)) z2) (rotation v) s3 (currentTurn v).

(** [update(deltaTime)]: [deltaTime] is not read. *)
Definition update (v : t) (i : EngineInput) : t :=
  applyPhysics (handleInput v i).

(** The coordinates [applyPhysics] has moved to when it tests them against
    the boundary. *)
Definition movedX (v : t) : R := x (position v) + sin (rotation v) * speed v.
Definition movedZ (v : t) : R := z (position v) + cos (rotation v) * speed v.

Definition getPosition (v : t) : Vector3 := position v.
Definition getSpeed (v : t) : R := speed v.

(** One [update] per polled input sample, oldest first. *)
Fixpoint run (v : t) (ins : list EngineInput) : t :=
  match ins with
  | [] => v
  | i :: rest => run (update v i) rest
  end.

(** States the game can be in: the constructed vehicle after any number
    of frames. *)
Inductive reachable : t -> Prop :=
| reachable_initial : reachable initial
| reachable_update v i : reachable v -> reachable (update v i).

(** *** Predicates used in the statements *)

(** The closed interval the speed lives in. *)
Definition speed_in_range (s : R) : Prop :=
  - maxSpeed * 0.5 <= s <= maxSpeed.

Definition turn_in_range (c : R) : Prop := -1 <= c <= 1.

(** [applyPhysics] clamps [h] on at least one axis. *)
Definition clamps (h : t) : Prop :=
  boundary < Rabs (movedX h) \/ boundary < Rabs (movedZ h).

(** No frame of the run is clamped at the boundary. *)
Fixpoint clamp_free (v : t) (ins : list EngineInput) : Prop :=
  match ins with
  | [] => True
  | i :: rest => ~ clamps (handleInput v i) /\ clamp_free (update v i) rest
  end.

(** A condition of the statements, not a function of the code: in every
    frame of the run, the value of [speed] that the steering test of
    [handleInput] reads, that is the speed after the acceleration block of
    that frame and before its boundary clamp, is at or below the deadzone.
    It is not the [speed] field as it stands between two frames: a clamp
    halves the field after the test has read it. *)
Fixpoint in_deadzone (v : t) (ins : list EngineInput) : Prop :=
  match ins with
  | [] => True
  | i :: rest =>
      Rabs (speed (handleInput v i)) <= 0.01 /\ in_deadzone (update v i) rest
  end.

(** Driving along the z axis: no sideways offset, heading 0, wheels
    straight. *)
Definition straight (v : t) (zpos s : R) : Prop :=
  x (position v) = 0 /\ z (position v) = zpos /\
  rotation v = 0 /\ currentTurn v = 0 /\ speed v = s.

(** Only the accelerator is held; nothing is held. *)
Definition gas : EngineInput := keys true false false false.
Definition idle : EngineInput := keys false false false false.

(** Distance covered along z after [n] frames of [gas] from rest, while
    still inside the arena. *)
Definition covered (n : nat) : R :=
  if (n <=? 37)%nat then 0.004 * INR n * (INR n + 1)
  else 0.3 * INR n - 5.476.

(** Neither accelerate nor brake is held. *)
Definition coasting (i : EngineInput) : Prop :=
  accelerate i = false /\ brake i = false.

End BurgerVehicle.

(** ** RacingGame: checkpoints and laps *)

Module RacingGame.

Import Three.

(** [bestTime] is a number that starts out as [Infinity]. *)
Inductive number : Type :=
| Finite (r : R)
| Infinity.

(** [a < b] for a finite [a]. *)
Definition lt_number (a : R) (b : number) : bool :=
  match b with
  | Infinity => true
  | Finite r => if Rlt_dec a r then true else false
  end.

Record t : Type := mk {
  vehicle : BurgerVehicle.t;
  checkpoints : list Vector3;
  currentCheckpoint : nat;
  lapCount : nat;
  startTime : R;
  bestTime : number
}.

Definition trackRadius : R := 30.
Definition trackSegments : nat := 64.

(** The checkpoints [createTrack] pushes: one every 8 segments, on the circle
    of radius [trackRadius], at height 0. *)
Definition createTrack : list Vector3 :=
  map (fun i : nat =>
         let angle := INR i / INR trackSegments * PI * 2 in
         mkVector3 (cos angle * trackRadius) 0 (sin angle * trackRadius))
      (filter (fun i => (i mod 8 =? 0)%nat) (seq 0 trackSegments)).

(** The game right after its constructor; [now] is what [Date.now()]
    returned when the field initialisers ran. *)
Definition create (now : R) : t :=
  mk BurgerVehicle.initial createTrack 0 0 now Infinity.

(** [checkCheckpoints()].  [now1] and [now2] are what the two [Date.now()]
    calls of the lap branch return, in this order.  The result is [None]
    where the code throws: an index past the end reads [undefined], and
    [distanceTo(undefined)] is a TypeError. *)
Definition checkCheckpoints (g : t) (now1 now2 : R) : option t :=
  if (length (checkpoints g) =? 0)%nat then Some g
  else
    match nth_error (checkpoints g) (currentCheckpoint g) with
    | None => None
    | Some checkpoint =>
        let vehiclePos := BurgerVehicle.getPosition (vehicle g) in
        let distance := distanceTo vehiclePos checkpoint in
        if Rlt_dec distance 3 then
          let next := S (currentCheckpoint g) in
          if (length (checkpoints g) <=? next)%nat then
            (* Completed a lap *)
            let lapTime := (now1 - startTime g) / 1000 in
            Some (mk (vehicle g) (checkpoints g) 0 (S (lapCount g)) now2
                     (if lt_number lapTime (bestTime g)
                      then Finite lapTime else bestTime g))
          else
            Some (mk (vehicle g) (checkpoints g) next (lapCount g)
                     (startTime g) (bestTime g))
        else Some g
    end.

(** What one frame holds for the game: the sample the vehicle polls and the
    clock readings of [checkCheckpoints]. *)
Record Frame : Type := mkFrame {
  input : BurgerVehicle.EngineInput;
  clock1 : R;
  clock2 : R
}.

(** [update(deltaTime)]: the vehicle is updated, then the checkpoints are
    checked. *)
Definition update (g : t) (f : Frame) : option t :=
  checkCheckpoints
    (mk (BurgerVehicle.update (vehicle g) (input f)) (checkpoints g)
        (currentCheckpoint g) (lapCount g) (startTime g) (bestTime g))
    (clock1 f) (clock2 f).

Fixpoint run (g : t) (fs : list Frame) : option t :=
  match fs with
  | [] => Some g
  | f :: rest =>
      match update g f with
      | Some g' => run g' rest
      | None => None
      end
  end.

(** *** Notions the statements about the track use *)

(** The smaller of a best time and a lap time. *)
Definition min_number (b : number) (lapTime : R) : number :=
  match b with
  | Infinity => Finite lapTime
  | Finite r => Finite (Rmin r lapTime)
  end.

(** Distance in the ground plane, ignoring height. *)
Definition planarDistance (a b : Vector3) : R :=
  sqrt ((x a - x b) * (x a - x b) + (z a - z b) * (z a - z b)).

(** The vehicle placed at [p], at rest. *)
Definition vehicleAt (p : Vector3) : BurgerVehicle.t :=
  BurgerVehicle.mk p 0 0 0.

(** The game with its vehicle replaced by [v]. *)
Definition withVehicle (g : t) (v : BurgerVehicle.t) : t :=
  mk v (checkpoints g) (currentCheckpoint g) (lapCount g) (startTime g)
     (bestTime g).

(** Successive [checkCheckpoints] calls, each with the vehicle state and the
    clock readings given for it. *)
Fixpoint checks (g : t) (vs : list (BurgerVehicle.t * R * R)) : option t :=
  match vs with
  | [] => Some g
  | (v, now1, now2) :: rest =>
      match checkCheckpoints (withVehicle g v) now1 now2 with
      | Some g' => checks g' rest
      | None => None
      end
  end.

(** The vehicle of a [checks] entry is closer than 3 to [cp]. *)
Definition crosses (f : BurgerVehicle.t * R * R) (cp : Vector3) : Prop :=
  distanceTo (BurgerVehicle.getPosition (fst (fst f))) cp < 3.

(** A track of one checkpoint with the vehicle parked over it. *)
Definition parked : BurgerVehicle.t := vehicleAt (mkVector3 30 0.5 0).
Definition oneCheckpoint : t :=
  mk parked [mkVector3 30 0 0] 0 0 0 Infinity.

(** The last checkpoint of [createTrack], and a vehicle riding over it. *)
Definition lastCheckpoint : Vector3 :=
  let angle := INR 56 / INR trackSegments * PI * 2 in
  mkVector3 (cos angle * trackRadius) 0 (sin angle * trackRadius).

Definition onLastCheckpoint : t :=
  mk (vehicleAt (mkVector3 (x lastCheckpoint) 0.5 (z lastCheckpoint)))
     createTrack 7 0 0 Infinity.

(** The constructed game with the vehicle 2.98 away from the first
    checkpoint in the plane. *)
Definition nearFirstCheckpoint : t :=
  mk (vehicleAt (mkVector3 32.98 0.5 0)) createTrack 0 0 0 Infinity.

End RacingGame.

(** ** Sword *)

Module Sword.

Import Three.

Inductive SwordType : Type := IRON | STEEL | GOLD | DIAMOND.

(** [mesh] is represented by the parts of it the methods touch: its
    position, its rotation about z, and whether it is in the scene. *)
Record t : Type := mk {
  type : SwordType;
  position : Vector3;
  collected : bool;
  floatOffset : R;
  meshPosition : Vector3;
  meshRotationZ : R;
  meshInScene : bool
}.

Definition rotationSpeed : R := 0.03.
Definition floatSpeed : R := 0.001.

(** The constructor; [random] is what [Math.random()] returned. *)
Definition create (type : SwordType) (position : Vector3) (random : R) : t :=
  mk type position false (random * PI * 2) position 0 true.

Definition update (s : t) : t :=
  if collected s then s
  else
    let floatOffset' := floatOffset s + floatSpeed in
    mk (type s) (position s) (collected s) floatOffset'
       (mkVector3 (x (meshPosition s))
                  (y (position s) + sin floatOffset' * 0.15)
                  (z (meshPosition s)))
       (meshRotationZ s + rotationSpeed)
       (meshInScene s).

Definition collect (s : t) : t :=
  mk (type s) (position s) true (floatOffset s) (meshPosition s)
     (meshRotationZ s) false.

Definition checkCollision (s : t) (playerPosition : Vector3)
    (playerRadius : R) : t * bool :=
  if collected s then (s, false)
  else
    let distance := distanceTo (meshPosition s) playerPosition in
    let collectDistance := playerRadius + 0.5 in
    if Rlt_dec distance collectDistance then (collect s, true)
    else (s, false).

Definition isCollected (s : t) : bool := collected s.

Definition dispose (s : t) : t :=
  if negb (collected s) then
    mk (type s) (position s) (collected s) (floatOffset s) (meshPosition s)
       (meshRotationZ s) false
  else s.

(** The state-changing methods a caller can invoke. *)
Inductive call : Type :=
| Update
| CheckCollision (playerPosition : Vector3) (playerRadius : R)
| Dispose.

Definition step (s : t) (c : call) : t :=
  match c with
  | Update => update s
  | CheckCollision p r => fst (checkCollision s p r)
  | Dispose => dispose s
  end.

Fixpoint run (s : t) (cs : list call) : t :=
  match cs with
  | [] => s
  | c :: rest => run (step s c) rest
  end.

End Sword.

(** ** BurgerVehicle: free look, camera and mesh *)

Module VehicleView.

Import Three.

(** The two free-look fields of the vehicle. *)
Record Look : Type := mkLook {
  cameraRotationY : R;
  cameraRotationX : R
}.

(** Their values after the field initialisers. *)
Definition initialLook : Look := mkLook 0 0.2.

(** What the camera block of [handleInput] polls. *)
Record PointerInput : Type := mkPointerInput {
  isMobile : bool;
  touchDeltaX : R;
  touchDeltaY : R;
  isPointerLocked : bool;
  mouseDeltaX : R;
  mouseDeltaY : R
}.

(** The camera block at the end of [handleInput]. *)
Definition handleLook (l : Look) (p : PointerInput) : Look :=
  if isMobile p then
    let ry := cameraRotationY l - touchDeltaX p * 0.005 in
    let rx := cameraRotationX l - touchDeltaY p * 0.005 in
    mkLook ry (Rmax (- PI / 3) (Rmin (PI / 3) rx))
  else if isPointerLocked p then
    let ry := cameraRotationY l - mouseDeltaX p * 0.002 in
    let rx := cameraRotationX l - mouseDeltaY p * 0.002 in
    mkLook ry (Rmax (- PI / 3) (Rmin (PI / 3) rx))
  else l.

Fixpoint looks (l : Look) (ps : list PointerInput) : Look :=
  match ps with
  | [] => l
  | p :: rest => looks (handleLook l p) rest
  end.

Definition cameraDistance : R := 12.
Definition cameraHeight : R := 6.

(** [updateCamera]: the position the camera is moved to; it then looks at
    the vehicle position. *)
Definition updateCamera (v : BurgerVehicle.t) : Vector3 :=
  let offsetX := sin (BurgerVehicle.rotation v + PI) * cameraDistance in
  let offsetY := cameraHeight in
  let offsetZ := cos (BurgerVehicle.rotation v + PI) * cameraDistance in
  mkVector3 (x (BurgerVehicle.position v) + offsetX)
            (y (BurgerVehicle.position v) + offsetY)
            (z (BurgerVehicle.position v) + offsetZ).



End VehicleView.

(** ** RacingGame: obstacles *)

Module Obstacles.

Import Three.

Definition obstacleCount (isMobile : bool) : nat :=
  if isMobile then 5%nat else 10%nat.

(** One iteration of the loop of [createObstacles]; [random1] and [random2]
    are what its two [Math.random()] calls return. *)
Definition createObstacle (random1 random2 : R) : Vector3 :=
  let angle := random1 * PI * 2 in
  let radius := RacingGame.trackRadius + (random2 - 0.5) * 2 in
  let x := cos angle * radius in
  let z := sin angle * radius in
  mkVector3 x 0.5 z.

(** [createObstacles]; [random k] is what the [k]-th [Math.random()] call
    returns. *)
Definition createObstacles (isMobile : bool) (random : nat -> R)
    : list Vector3 :=
  map (fun i : nat => createObstacle (random (2 * i)%nat)
                                     (random (2 * i + 1)%nat))
      (seq 0 (obstacleCount isMobile)).

(** The width of the road built by [createTrack]. *)
Definition trackWidth : R := 8.

End Obstacles.

(** ** Sword: calls and their results *)

Module SwordCalls.

Import Three Sword.

(** What the [checkCollision] calls of a sequence return, in order. *)
Fixpoint results (s : t) (cs : list call) : list bool :=
  match cs with
  | [] => []
  | CheckCollision p r :: rest =>
      snd (checkCollision s p r) :: results (step s (CheckCollision p r)) rest
  | c :: rest => results (step s c) rest
  end.

(** Swords as the game has them: constructed, then called. *)
Inductive reachable : t -> Prop :=
| reachable_create type position random :
    reachable (create type position random)
| reachable_step s c : reachable s -> reachable (step s c).

End SwordCalls.

(** ** BurgerVehicle: states an update can start from *)

Module VehicleNotions.

Import Three BurgerVehicle.

(** Inside the arena, with a speed between the two caps. *)
Definition drivable (v : t) : Prop :=
  speed_in_range (speed v) /\
  Rabs (x (position v)) <= boundary /\ Rabs (z (position v)) <= boundary.

(** A condition of the statements: in every frame of the run the steering
    test of [handleInput] passes, that is the speed after the acceleration
    block of that frame, before its boundary clamp, is above the
    deadzone. *)
Fixpoint steering_live (v : t) (ins : list EngineInput) : Prop :=
  match ins with
  | [] => True
  | i :: rest =>
      0.01 < Rabs (speed (handleInput v i)) /\ steering_live (update v i) rest
  end.

End VehicleNotions.

(** ** RacingGame: orders and measures used in the statements *)

Module RaceNotions.

Import RacingGame.

(** [a <= b] on best times, with [Infinity] above every number. *)
Definition le_number (a b : number) : Prop :=
  match a, b with
  | _, Infinity => True
  | Infinity, Finite _ => False
  | Finite x, Finite y => x <= y
  end.

(** Checkpoints registered so far: whole laps plus the cursor. *)
Definition progress (g : t) : nat :=
  (lapCount g * length (checkpoints g) + currentCheckpoint g)%nat.

(** The inputs of a list of frames. *)
Definition inputs (fs : list Frame) : list BurgerVehicle.EngineInput :=
  map input fs.

(** The lap times [checkCheckpoints] computes over a run, oldest first: one
    [(Date.now() - startTime) / 1000] for each frame that raises
    [lapCount]. *)
Fixpoint lapTimes (g : t) (fs : list Frame) : list R :=
  match fs with
  | [] => []
  | f :: rest =>
      match update g f with
      | Some g' =>
          (if (lapCount g' =? S (lapCount g))%nat
           then [(clock1 f - startTime g) / 1000] else [])
          ++ lapTimes g' rest
      | None => []
      end
  end.

End RaceNotions.

(** ** Sword: configuration table and mesh parts *)

Module SwordMesh.

Import Sword.

Record SwordConfigData : Type := mkConfig {
  bladeColor : N;
  handleColor : N;
  bladeLength : R;
  bladeWidth : R
}.

Definition SWORD_CONFIGS (type : SwordType) : SwordConfigData :=
  match type with
  | IRON => mkConfig 0xc0c0c0 0x8b4513 1.2 0.15
  | STEEL => mkConfig 0x708090 0x654321 1.3 0.12
  | GOLD => mkConfig 0xffd700 0xdaa520 1.4 0.14
  | DIAMOND => mkConfig 0xb9f2ff 0x4169e1 1.5 0.16
  end.

Definition getSwordConfig (type : SwordType) : SwordConfigData :=
  SWORD_CONFIGS type.

Definition getHeight (s : t) : R := bladeLength (SWORD_CONFIGS (type s)).

(** [getGeometryComplexity().segments]; [isMobile] is the outcome of the
    window test. *)
Definition getGeometryComplexity (isMobile : bool) : nat :=
  if isMobile then 6%nat else 12%nat.

(** The three.js geometries the sword is built from. *)
Inductive Geometry : Type :=
| BoxGeometry (width height depth : R)
| CylinderGeometry (radiusTop radiusBottom height : R) (radialSegments : nat)
| SphereGeometry (radius : R) (widthSegments heightSegments : nat).

Record Material : Type := mkMaterial {
  color : N;
  roughness : R;
  metalness : R
}.

(** A mesh added to the sword group, with the one coordinate that is set. *)
Record Part : Type := mkPart {
  geometry : Geometry;
  material : Material;
  positionY : R
}.

(** The four meshes the constructor adds to [this.mesh], in order: blade,
    crossguard, handle, pommel. *)
Definition constructorParts (type : SwordType) (isMobile : bool) : list Part :=
  let config_data := SWORD_CONFIGS type in
  let segments := getGeometryComplexity isMobile in
  let blade :=
    mkPart (BoxGeometry (bladeWidth config_data) (bladeLength config_data)
                        (bladeWidth config_data * 0.3))
           (mkMaterial (bladeColor config_data) 0.3 0.8)
           (bladeLength config_data / 2) in
  let crossguard :=
    mkPart (BoxGeometry (bladeWidth config_data * 3)
                        (bladeWidth config_data * 0.5)
                        (bladeWidth config_data * 0.5))
           (mkMaterial (bladeColor config_data) 0.3 0.8)
           (bladeLength config_data * 0.1) in
  let handle :=
    mkPart (CylinderGeometry (bladeWidth config_data * 0.4)
                             (bladeWidth config_data * 0.4)
                             (bladeLength config_data * 0.4) segments)
           (mkMaterial (handleColor config_data) 0.7 0.1)
           (- bladeLength config_data * 0.2) in
  let pommel :=
    mkPart (SphereGeometry (bladeWidth config_data * 0.5) segments segments)
           (mkMaterial (bladeColor config_data) 0.3 0.8)
           (- bladeLength config_data * 0.4) in
  [blade; crossguard; handle; pommel].

(** The four meshes [createMeshForPlayer] adds to the group it returns. *)
Definition createMeshForPlayer (s : t) (isMobile : bool) : list Part :=
  let config_data := SWORD_CONFIGS (type s) in
  let segments := getGeometryComplexity isMobile in
  let blade :=
    mkPart (BoxGeometry (bladeWidth config_data) (bladeLength config_data)
                        (bladeWidth config_data * 0.3))
           (mkMaterial (bladeColor config_data) 0.3 0.8)
           (bladeLength config_data / 2) in
  let crossguard :=
    mkPart (BoxGeometry (bladeWidth config_data * 3)
                        (bladeWidth config_data * 0.5)
                        (bladeWidth config_data * 0.5))
           (mkMaterial (bladeColor config_data) 0.3 0.8)
           (bladeLength config_data * 0.1) in
  let handle :=
    mkPart (CylinderGeometry (bladeWidth config_data * 0.4)
                             (bladeWidth config_data * 0.4)
                             (bladeLength config_data * 0.4) segments)
           (mkMaterial (handleColor config_data) 0.7 0.1)
           (- bladeLength config_data * 0.2) in
  let pommel :=
    mkPart (SphereGeometry (bladeWidth config_data * 0.5) segments segments)
           (mkMaterial (bladeColor config_data) 0.3 0.8)
           (- bladeLength config_data * 0.4) in
  [blade; crossguard; handle; pommel].

(** Lowest and highest point of a part along the group's y axis: three.js
    boxes, cylinders and spheres are centred on the mesh position. *)
Definition halfHeight (g : Geometry) : R :=
  match g with
  | BoxGeometry _ height _ => height / 2
  | CylinderGeometry _ _ height _ => height / 2
  | SphereGeometry radius _ _ => radius
  end.

Definition bottom (p : Part) : R := positionY p - halfHeight (geometry p).
Definition top (p : Part) : R := positionY p + halfHeight (geometry p).

End SwordMesh.

(** * Properties *)

(** Case analysis on every real comparison in sight. *)
Ltac rcases :=
  repeat match goal with
  | |- context [Rlt_dec ?a ?b] => destruct (Rlt_dec a b)
  | |- context [Rle_dec ?a ?b] => destruct (Rle_dec a b)
  | |- context [Rcase_abs ?a] => destruct (Rcase_abs a)
  | _ : context [Rlt_dec ?a ?b] |- _ => destruct (Rlt_dec a b)
  | _ : context [Rle_dec ?a ?b] |- _ => destruct (Rle_dec a b)
  | _ : context [Rcase_abs ?a] |- _ => destruct (Rcase_abs a)
  end.

Module VehicleFacts.

Import Three BurgerVehicle.

Ltac unfold_consts :=
  unfold maxSpeed, acceleration, deceleration, turnSpeed, boundary in *.

Lemma handleInput_speed_in_range v i :
  speed_in_range (speed v) -> speed_in_range (speed (handleInput v i)).
Proof.
  unfold speed_in_range, handleInput; unfold_consts; simpl.
  intros [Hlo Hhi].
  destruct (accelerate i); [| destruct (brake i)];
    unfold Rmin, Rmax; rcases; lra.
Qed.

Lemma applyPhysics_speed_in_range v :
  speed_in_range (speed v) -> speed_in_range (speed (applyPhysics v)).
Proof.
  unfold speed_in_range, applyPhysics; unfold_consts.
  intros [Hlo Hhi].
  rcases; simpl; lra.
Qed.

Lemma update_speed_in_range v i :
  speed_in_range (speed v) -> speed_in_range (speed (update v i)).
Proof.
  intros H. unfold update.
  now apply applyPhysics_speed_in_range, handleInput_speed_in_range.
Qed.

Lemma run_speed_in_range ins : forall v,
  speed_in_range (speed v) -> speed_in_range (speed (run v ins)).
Proof.
  induction ins as [| i rest IH]; intros v H; simpl; [exact H |].
  now apply IH, update_speed_in_range.
Qed.

Lemma initial_speed_in_range : speed_in_range (speed initial).
Proof. unfold speed_in_range, initial; unfold_consts; simpl. lra. Qed.

(** C2: whatever inputs are polled, and whether or not a frame clamps the
    position at the arena boundary, after every [update] of a run from the
    constructed vehicle the speed lies in
    [[-maxSpeed * 0.5, maxSpeed]]. *)
Theorem C2_speed_bounded_after_every_update :
  forall (ins : list EngineInput),
    - maxSpeed * 0.5 <= speed (run initial ins) <= maxSpeed.
Proof.
  intros ins.
  exact (run_speed_in_range ins initial initial_speed_in_range).
Qed.

(** *** Projections of one frame *)

Lemma currentTurn_update v i :
  currentTurn (update v i) = currentTurn (handleInput v i).
Proof. unfold update, applyPhysics. rcases; reflexivity. Qed.

Lemma rotation_update v i :
  rotation (update v i) = rotation (handleInput v i).
Proof. unfold update, applyPhysics. rcases; reflexivity. Qed.

Lemma y_update v i : y (position (update v i)) = y (position v).
Proof. unfold update, applyPhysics. rcases; reflexivity. Qed.

Lemma speed_applyPhysics_inside h :
  Rabs (movedX h) <= boundary -> Rabs (movedZ h) <= boundary ->
  speed (applyPhysics h) = speed h.
Proof.
  unfold applyPhysics, movedX, movedZ. intros Hx Hz.
  rcases; simpl; try reflexivity; lra.
Qed.

Lemma position_applyPhysics_inside h :
  Rabs (movedX h) <= boundary -> Rabs (movedZ h) <= boundary ->
  position (applyPhysics h)
  = mkVector3 (movedX h) (y (position h)) (movedZ h).
Proof.
  unfold applyPhysics, movedX, movedZ. intros Hx Hz.
  rcases; simpl; try reflexivity; lra.
Qed.

(** The vehicle never leaves the height it is constructed at. *)
Lemma reachable_y v : reachable v -> y (position v) = 0.5.
Proof.
  induction 1 as [| v i _ IH]; [reflexivity |].
  now rewrite y_update.
Qed.

(** *** Steering intent *)

Lemma handleInput_turn_in_range v i :
  turn_in_range (currentTurn v) ->
  turn_in_range (currentTurn (handleInput v i)).
Proof.
  unfold turn_in_range, handleInput; unfold_consts; simpl.
  intros [Hlo Hhi].
  destruct (Rlt_dec 0.01 _); [| lra].
  destruct (turnLeft i); [| destruct (turnRight i)];
    unfold Rmin, Rmax; rcases; lra.
Qed.

Lemma reachable_turn_in_range v :
  reachable v -> turn_in_range (currentTurn v).
Proof.
  induction 1 as [| v i _ IH].
  - unfold turn_in_range; simpl; lra.
  - rewrite currentTurn_update. now apply handleInput_turn_in_range.
Qed.

Lemma reachable_speed_in_range v :
  reachable v -> speed_in_range (speed v).
Proof.
  induction 1 as [| v i _ IH].
  - exact initial_speed_in_range.
  - now apply update_speed_in_range.
Qed.

Lemma reachable_run ins : forall v, reachable v -> reachable (run v ins).
Proof.
  induction ins as [| i rest IH]; intros v H; simpl; [exact H |].
  apply IH. now constructor.
Qed.

Lemma run_app ins1 : forall v ins2,
  run v (ins1 ++ ins2) = run (run v ins1) ins2.
Proof.
  induction ins1 as [| i rest IH]; intros v ins2; simpl; [reflexivity |].
  apply IH.
Qed.

(** While the speed the steering test reads is above the deadzone, the
    intent moves by at most [turnSpeed]; otherwise it is overwritten
    with 0. *)
Lemma handleInput_turn_step v i :
  turn_in_range (currentTurn v) ->
  (0.01 < Rabs (speed (handleInput v i)) ->
     Rabs (currentTurn (handleInput v i) - currentTurn v) <= turnSpeed) /\
  (Rabs (speed (handleInput v i)) <= 0.01 ->
     currentTurn (handleInput v i) = 0).
Proof.
  unfold turn_in_range, handleInput; unfold_consts; simpl.
  intros [Hlo Hhi].
  set (s' := if accelerate i then _ else _).
  split; intros Hs; destruct (Rlt_dec 0.01 (Rabs s')); try lra;
    try reflexivity.
  destruct (turnLeft i); [| destruct (turnRight i)];
    unfold Rmin, Rmax, Rabs; rcases; lra.
Qed.

(** *** Distance to the walls *)

Lemma Rabs_sin_mult r s : Rabs (sin r * s) <= Rabs s.
Proof.
  rewrite Rabs_mult.
  assert (Hs : Rabs (sin r) <= 1)
    by (apply Rabs_le; generalize (SIN_bound r); lra).
  generalize (Rabs_pos s); nra.
Qed.

Lemma Rabs_cos_mult r s : Rabs (cos r * s) <= Rabs s.
Proof.
  rewrite Rabs_mult.
  assert (Hs : Rabs (cos r) <= 1)
    by (apply Rabs_le; generalize (COS_bound r); lra).
  generalize (Rabs_pos s); nra.
Qed.

Lemma speed_in_range_Rabs s : speed_in_range s -> Rabs s <= 0.3.
Proof.
  unfold speed_in_range; unfold_consts. intros [Hlo Hhi].
  apply Rabs_le; lra.
Qed.

(** A vehicle within [d] of the origin on both axes, with [d + 0.3] still
    inside the arena, is not clamped by the next frame and ends it within
    [d + 0.3]. *)
Lemma update_far_from_wall v i d :
  speed_in_range (speed v) ->
  Rabs (x (position v)) <= d -> Rabs (z (position v)) <= d ->
  d + 0.3 <= boundary ->
  speed (update v i) = speed (handleInput v i) /\
  Rabs (x (position (update v i))) <= d + 0.3 /\
  Rabs (z (position (update v i))) <= d + 0.3.
Proof.
  intros Hs Hx Hz Hd.
  pose proof (speed_in_range_Rabs _ (handleInput_speed_in_range v i Hs))
    as Hs'.
  set (h := handleInput v i) in *.
  assert (Hmx : Rabs (movedX h) <= d + 0.3).
  { unfold movedX. eapply Rle_trans; [apply Rabs_triang |].
    pose proof (Rabs_sin_mult (rotation h) (speed h)).
    change (position h) with (position v). lra. }
  assert (Hmz : Rabs (movedZ h) <= d + 0.3).
  { unfold movedZ. eapply Rle_trans; [apply Rabs_triang |].
    pose proof (Rabs_cos_mult (rotation h) (speed h)).
    change (position h) with (position v). lra. }
  unfold update. fold h.
  rewrite speed_applyPhysics_inside, position_applyPhysics_inside by lra.
  simpl. auto.
Qed.

(** *** Replaying concrete frames *)

(** Speed and steering intent after [handleInput] are functions of the
    speed and intent before it and of the sample. *)
Ltac eval_handleInput Hs Hc :=
  repeat match goal with a := keys _ _ _ _ |- _ => subst a end;
  unfold handleInput; cbn [speed currentTurn accelerate brake turnLeft
    turnRight keys isMobileControlsActive keyW keyS keyA keyD arrowUp
    arrowDown arrowLeft arrowRight orb];
  rewrite ?Hs, ?Hc; unfold_consts; unfold Rmin, Rmax, Rabs; rcases; lra.

(** C4 (amended): in a reachable state [currentTurn] lies in [[-1, 1]]; a
    frame in which the speed read by the steering test is above the
    deadzone 0.01 moves it by at most [turnSpeed]; a frame in which that
    speed is at or below the deadzone sets it to 0, whatever it was. *)
Theorem C4_turn_step_outside_deadzone :
  forall v i, reachable v ->
    -1 <= currentTurn v <= 1 /\
    (0.01 < Rabs (speed (handleInput v i)) ->
       Rabs (currentTurn (update v i) - currentTurn v) <= turnSpeed) /\
    (Rabs (speed (handleInput v i)) <= 0.01 ->
       currentTurn (update v i) = 0).
Proof.
  intros v i Hr. rewrite currentTurn_update.
  pose proof (reachable_turn_in_range v Hr) as Ht.
  split; [exact Ht |]. now apply handleInput_turn_step.
Qed.

Lemma C4_turn_step_outside_deadzone_witness :
  reachable initial /\
  Rabs (speed (handleInput initial (keys false false true false))) <= 0.01 /\
  currentTurn (update initial (keys false false true false)) = 0.
Proof.
  split; [constructor |].
  assert (H : Rabs (speed (handleInput initial
                              (keys false false true false))) <= 0.01)
    by (eval_handleInput (eq_refl : speed initial = 0)
                         (eq_refl : currentTurn initial = 0)).
  split; [exact H |].
  exact (proj2 (proj2 (C4_turn_step_outside_deadzone initial
                         (keys false false true false) reachable_initial))
               H).
Defined.

(** C4 as stated fails: accelerate for three frames while steering left
    in the last two (speed 0.024, intent -0.06), then brake with left still
    held: the speed drops to 0.009, inside the deadzone, and the intent
    jumps from -0.06 to 0, twice [turnSpeed]. *)
Lemma C4_turn_jump_counterexample :
  let v := run initial [keys true false false false;
                        keys true false true false;
                        keys true false true false] in
  let i := keys false true true false in
  reachable v /\
  currentTurn v = -0.06 /\
  currentTurn (update v i) = 0 /\
  ~ Rabs (currentTurn (update v i) - currentTurn v) <= turnSpeed.
Proof.
  cbn zeta.
  set (A := keys true false false false).
  set (AL := keys true false true false).
  set (BL := keys false true true false).
  cbn [run].
  set (v1 := update initial A).
  set (v2 := update v1 AL).
  set (v3 := update v2 AL).
  assert (R1 : reachable v1) by (repeat constructor).
  assert (R2 : reachable v2) by (repeat constructor).
  assert (R3 : reachable v3) by (repeat constructor).
  (* frame 1 *)
  destruct (update_far_from_wall initial A 0) as (S1 & X1 & Z1);
    [exact initial_speed_in_range | simpl; rewrite Rabs_R0; lra ..
    | unfold boundary; lra |].
  fold v1 in S1, X1, Z1.
  assert (S1' : speed v1 = 0.008)
    by (rewrite S1; eval_handleInput (eq_refl : speed initial = 0)
                                     (eq_refl : currentTurn initial = 0)).
  assert (T1 : currentTurn v1 = 0)
    by (unfold v1; rewrite currentTurn_update;
        eval_handleInput (eq_refl : speed initial = 0)
                         (eq_refl : currentTurn initial = 0)).
  (* frame 2 *)
  destruct (update_far_from_wall v1 AL (0 + 0.3)) as (S2 & X2 & Z2);
    [now apply reachable_speed_in_range | assumption ..
    | unfold boundary; lra |].
  fold v2 in S2, X2, Z2.
  assert (S2' : speed v2 = 0.016) by (rewrite S2; eval_handleInput S1' T1).
  assert (T2 : currentTurn v2 = -0.03)
    by (unfold v2; rewrite currentTurn_update; eval_handleInput S1' T1).
  (* frame 3 *)
  destruct (update_far_from_wall v2 AL (0 + 0.3 + 0.3)) as (S3 & X3 & Z3);
    [now apply reachable_speed_in_range | assumption ..
    | unfold boundary; lra |].
  fold v3 in S3, X3, Z3.
  assert (S3' : speed v3 = 0.024) by (rewrite S3; eval_handleInput S2' T2).
  assert (T3 : currentTurn v3 = -0.06)
    by (unfold v3; rewrite currentTurn_update; eval_handleInput S2' T2).
  (* frame 4: braking into the deadzone *)
  assert (T4 : currentTurn (update v3 BL) = 0)
    by (rewrite currentTurn_update; eval_handleInput S3' T3).
  repeat split; try assumption.
  rewrite T4, T3. unfold turnSpeed, Rabs. rcases; lra.
Qed.

(** *** Heading inside the deadzone *)

Lemma rotation_handleInput_deadzone v i :
  Rabs (speed (handleInput v i)) <= 0.01 ->
  rotation (handleInput v i) = rotation v.
Proof.
  unfold handleInput; simpl.
  set (s' := if accelerate i then _ else _).
  intros Hs. destruct (Rlt_dec 0.01 (Rabs s')); [lra | ring].
Qed.

Lemma coasting_stays_in_deadzone v i :
  coasting i -> Rabs (speed v) <= 0.01 ->
  Rabs (speed (handleInput v i)) <= 0.01 /\
  Rabs (speed (update v i)) <= 0.01.
Proof.
  intros [Ha Hb] Hs.
  assert (H : Rabs (speed (handleInput v i)) <= 0.01).
  { unfold handleInput; simpl. rewrite Ha, Hb. unfold_consts.
    revert Hs. unfold Rmin, Rmax, Rabs; rcases; lra. }
  split; [exact H |].
  unfold update. revert H. generalize (handleInput v i). intros h H.
  unfold applyPhysics. revert H. unfold Rabs. rcases; simpl; lra.
Qed.

(** C7 (amended): over any number of frames and any inputs, if in each
    frame the speed read by the steering test (the speed after the
    acceleration block of that frame, before its boundary clamp) is within
    the deadzone ([|speed| <= 0.01]), the heading after the run is the
    heading before it.  In particular ([coasting] runs): starting at or
    below the deadzone speed with neither accelerate nor brake held,
    steering keys have no effect on the heading, however many frames they
    are held. *)
Theorem C7_no_heading_change_in_deadzone :
  forall (ins : list EngineInput) (v : t),
    (in_deadzone v ins -> rotation (run v ins) = rotation v) /\
    (Rabs (speed v) <= 0.01 -> Forall coasting ins ->
       rotation (run v ins) = rotation v).
Proof.
  induction ins as [| i rest IH]; intros v; simpl.
  - split; reflexivity.
  - split.
    + intros [Hs Hrest].
      rewrite (proj1 (IH (update v i)) Hrest), rotation_update.
      now apply rotation_handleInput_deadzone.
    + intros Hs Hall. inversion Hall as [| ? ? Hi Hr]; subst.
      destruct (coasting_stays_in_deadzone v i Hi Hs) as [Hh Hu].
      rewrite (proj2 (IH (update v i)) Hu Hr), rotation_update.
      now apply rotation_handleInput_deadzone.
Qed.

Lemma coasting_in_deadzone ins : forall v,
  Rabs (speed v) <= 0.01 -> Forall coasting ins -> in_deadzone v ins.
Proof.
  induction ins as [| i rest IH]; intros v Hs Hall; simpl; [exact I |].
  inversion Hall as [| ? ? Hi Hr]; subst.
  destruct (coasting_stays_in_deadzone v i Hi Hs) as [Hh Hu].
  split; [exact Hh | now apply IH].
Qed.

Lemma C7_no_heading_change_in_deadzone_witness :
  let left := keys false false true false in
  Rabs (speed initial) <= 0.01 /\
  Forall coasting [left; left; left] /\
  in_deadzone initial [left; left; left] /\
  rotation (run initial [left; left; left]) = rotation initial.
Proof.
  cbn zeta.
  assert (Hs : Rabs (speed initial) <= 0.01)
    by (simpl; rewrite Rabs_R0; lra).
  assert (Hc : Forall coasting
                 [keys false false true false; keys false false true false;
                  keys false false true false])
    by (repeat constructor).
  split; [exact Hs | split; [exact Hc | split]].
  - now apply coasting_in_deadzone.
  - apply (proj1 (C7_no_heading_change_in_deadzone _ initial)).
    now apply coasting_in_deadzone.
Defined.

(** *** The arena boundary *)

Lemma Rabs_sign_boundary a :
  boundary < Rabs a -> Rabs (Math.sign a * boundary) = boundary.
Proof.
  unfold Math.sign, boundary, Rabs. intros H. rcases; lra.
Qed.

Lemma speed_applyPhysics h :
  speed (applyPhysics h) =
  if Rlt_dec boundary (Rabs (movedZ h))
  then (if Rlt_dec boundary (Rabs (movedX h))
        then speed h * 0.5 else speed h) * 0.5
  else (if Rlt_dec boundary (Rabs (movedX h))
        then speed h * 0.5 else speed h).
Proof.
  unfold applyPhysics. fold (movedX h) (movedZ h).
  rcases; simpl; lra.
Qed.

Lemma rotation_handleInput_straight v i :
  currentTurn (handleInput v i) = 0 ->
  rotation (handleInput v i) = rotation v.
Proof.
  intros H.
  change (rotation (handleInput v i))
    with (rotation v + currentTurn (handleInput v i)
                       * Rabs (speed (handleInput v i)) * 0.1).
  rewrite H. ring.
Qed.

(** C8 (amended): when the position update carries [|x|] (or [|z|]) beyond
    the boundary 50, that coordinate is set to exactly [+boundary] or
    [-boundary] (the side it left on), and the speed is multiplied by 0.5
    once for each coordinate clamped: by 0.5 when one of the two leaves
    the arena, by 0.5 * 0.5 when both do in the same update. *)
Theorem C8_clamp_halves_speed_per_axis :
  forall v i,
    let h := handleInput v i in
    let v' := update v i in
    (boundary < Rabs (movedX h) ->
       x (position v') = Math.sign (movedX h) * boundary /\
       Rabs (x (position v')) = boundary) /\
    (boundary < Rabs (movedZ h) ->
       z (position v') = Math.sign (movedZ h) * boundary /\
       Rabs (z (position v')) = boundary) /\
    (boundary < Rabs (movedX h) -> Rabs (movedZ h) <= boundary ->
       speed v' = speed h * 0.5) /\
    (Rabs (movedX h) <= boundary -> boundary < Rabs (movedZ h) ->
       speed v' = speed h * 0.5) /\
    (boundary < Rabs (movedX h) -> boundary < Rabs (movedZ h) ->
       speed v' = speed h * 0.5 * 0.5).
Proof.
  intros v i h v'. subst v'. unfold update. fold h.
  generalize h; clear; intros h.
  assert (Hx : boundary < Rabs (movedX h) ->
               x (position (applyPhysics h)) = Math.sign (movedX h) * boundary).
  { unfold applyPhysics. fold (movedX h) (movedZ h). intros H.
    rcases; simpl; try reflexivity; lra. }
  assert (Hz : boundary < Rabs (movedZ h) ->
               z (position (applyPhysics h)) = Math.sign (movedZ h) * boundary).
  { unfold applyPhysics. fold (movedX h) (movedZ h). intros H.
    rcases; simpl; try reflexivity; lra. }
  split; [| split; [| split; [| split]]].
  - intros H. split; [now apply Hx |].
    rewrite (Hx H). now apply Rabs_sign_boundary.
  - intros H. split; [now apply Hz |].
    rewrite (Hz H). now apply Rabs_sign_boundary.
  - intros H1 H2. rewrite speed_applyPhysics. rcases; lra.
  - intros H1 H2. rewrite speed_applyPhysics. rcases; lra.
  - intros H1 H2. rewrite speed_applyPhysics. rcases; lra.
Qed.

Lemma C8_clamp_halves_speed_per_axis_witness :
  let v := mk (mkVector3 50 0.5 0) (PI / 2) 0.3 0 in
  let i := keys true false false false in
  let h := handleInput v i in
  boundary < Rabs (movedX h) /\ Rabs (movedZ h) <= boundary /\
  speed (update v i) = speed h * 0.5 /\
  x (position (update v i)) = Math.sign (movedX h) * boundary.
Proof.
  cbn zeta.
  set (v := mk (mkVector3 50 0.5 0) (PI / 2) 0.3 0).
  set (i := keys true false false false).
  assert (Hs : speed (handleInput v i) = 0.3)
    by (subst v i; eval_handleInput (eq_refl 0.3) (eq_refl 0)).
  assert (Hc : currentTurn (handleInput v i) = 0)
    by (subst v i; eval_handleInput (eq_refl 0.3) (eq_refl 0)).
  assert (Hr : rotation (handleInput v i) = PI / 2)
    by (now rewrite rotation_handleInput_straight).
  assert (Hx : movedX (handleInput v i) = 50.3)
    by (unfold movedX; rewrite Hr, Hs, sin_PI2; simpl; lra).
  assert (Hz : movedZ (handleInput v i) = 0)
    by (unfold movedZ; rewrite Hr, Hs, cos_PI2; simpl; lra).
  assert (H1 : boundary < Rabs (movedX (handleInput v i)))
    by (rewrite Hx; unfold boundary, Rabs; rcases; lra).
  assert (H2 : Rabs (movedZ (handleInput v i)) <= boundary)
    by (rewrite Hz, Rabs_R0; unfold boundary; lra).
  destruct (C8_clamp_halves_speed_per_axis v i) as (Kx & _ & Kone & _).
  split; [exact H1 | split; [exact H2 | split]].
  - exact (Kone H1 H2).
  - exact (proj1 (Kx H1)).
Defined.

(** C8 as stated fails in a corner of the arena: at [(50, 50)] heading
    0.75 rad at full speed, the update carries both [x] and [z] beyond the
    boundary; both are clamped to 50 and the speed is halved twice, from
    0.3 to 0.075, not to 0.15. *)
Lemma C8_corner_counterexample :
  let v := mk (mkVector3 50 0.5 50) 0.75 0.3 0 in
  let i := keys true false false false in
  let h := handleInput v i in
  boundary < Rabs (movedX h) /\
  speed h = 0.3 /\
  speed (update v i) = 0.075 /\
  speed (update v i) <> speed h * 0.5.
Proof.
  cbn zeta.
  set (v := mk (mkVector3 50 0.5 50) 0.75 0.3 0).
  set (i := keys true false false false).
  assert (Hs : speed (handleInput v i) = 0.3)
    by (subst v i; eval_handleInput (eq_refl 0.3) (eq_refl 0)).
  assert (Hc : currentTurn (handleInput v i) = 0)
    by (subst v i; eval_handleInput (eq_refl 0.3) (eq_refl 0)).
  assert (Hr : rotation (handleInput v i) = 0.75)
    by (now rewrite rotation_handleInput_straight).
  pose proof PI2_1 as Hpi.
  assert (Hsin : 0 < sin 0.75) by (apply sin_gt_0; lra).
  assert (Hcos : 0 < cos 0.75) by (apply cos_gt_0; lra).
  assert (H1 : boundary < Rabs (movedX (handleInput v i))).
  { unfold movedX. rewrite Hr, Hs. simpl. unfold boundary, Rabs.
    rcases; nra. }
  assert (H2 : boundary < Rabs (movedZ (handleInput v i))).
  { unfold movedZ. rewrite Hr, Hs. simpl. unfold boundary, Rabs.
    rcases; nra. }
  assert (H3 : speed (update v i) = 0.075).
  { unfold update. rewrite speed_applyPhysics, Hs. rcases; lra. }
  split; [exact H1 | split; [exact Hs | split; [exact H3 |]]].
  rewrite H3, Hs. lra.
Qed.

(** *** Driving straight into the far wall *)

Lemma straight_frame v i zp s :
  straight v zp s -> turnLeft i = false -> turnRight i = false ->
  let s' := speed (handleInput v i) in
  straight (update v i)
    (if Rlt_dec boundary (Rabs (zp + s'))
     then Math.sign (zp + s') * boundary else zp + s')
    (if Rlt_dec boundary (Rabs (zp + s')) then s' * 0.5 else s').
Proof.
  intros (Hx & Hz & Hr & Hc & Hs) Hl Hri s'.
  assert (Hc' : currentTurn (handleInput v i) = 0).
  { unfold handleInput; simpl. rewrite Hl, Hri, Hc.
    rcases; try reflexivity; lra. }
  assert (Hr' : rotation (handleInput v i) = 0)
    by (now rewrite rotation_handleInput_straight).
  assert (Hmx : movedX (handleInput v i) = 0).
  { unfold movedX. rewrite Hr', sin_0.
    change (position (handleInput v i)) with (position v). rewrite Hx. ring. }
  assert (Hmz : movedZ (handleInput v i) = zp + s').
  { unfold movedZ. rewrite Hr', cos_0.
    change (position (handleInput v i)) with (position v). rewrite Hz.
    subst s'. ring. }
  assert (Hb : ~ boundary < Rabs 0)
    by (rewrite Rabs_R0; unfold boundary; lra).
  unfold straight.
  rewrite currentTurn_update, rotation_update.
  unfold update at 3. rewrite speed_applyPhysics.
  unfold update, applyPhysics.
  fold (movedX (handleInput v i)) (movedZ (handleInput v i)).
  rewrite Hmx, Hmz. fold s'.
  destruct (Rlt_dec boundary (Rabs 0)); [contradiction |].
  destruct (Rlt_dec boundary (Rabs (zp + s'))); simpl; auto.
Qed.

Lemma run_repeat_S v i n :
  run v (repeat i (S n)) = update (run v (repeat i n)) i.
Proof.
  change (repeat i (S n)) with (i :: repeat i n).
  rewrite repeat_cons, run_app. reflexivity.
Qed.

Lemma speed_handleInput_accelerate v i :
  accelerate i = true ->
  speed (handleInput v i) = Rmin (speed v + acceleration) maxSpeed.
Proof. intros H. unfold handleInput; simpl. now rewrite H. Qed.

Lemma INR_le_const n k : (n <= k)%nat -> INR n <= IZR (Z.of_nat k).
Proof. intros H. rewrite <- INR_IZR_INZ. now apply le_INR. Qed.

Lemma INR_ge_const n k : (k <= n)%nat -> IZR (Z.of_nat k) <= INR n.
Proof. intros H. rewrite <- INR_IZR_INZ. now apply le_INR. Qed.

(** For the first 184 frames of [gas] from the constructed vehicle the
    wall is not reached: the vehicle is on the z axis at [covered n] with
    speed [min (n * 0.008) 0.3]. *)
Lemma gas_run_straight n :
  (n <= 184)%nat ->
  straight (run initial (repeat gas n)) (covered n)
           (Rmin (INR n * acceleration) maxSpeed).
Proof.
  induction n as [| n IH]; intros Hn.
  - unfold straight, covered; unfold_consts; simpl.
    unfold Rmin; rcases; repeat split; lra.
  - rewrite run_repeat_S.
    assert (Hn' : (n <= 184)%nat) by lia.
    pose proof (straight_frame _ gas _ _ (IH Hn') eq_refl eq_refl) as Hf.
    cbn zeta in Hf.
    rewrite speed_handleInput_accelerate in Hf by reflexivity.
    destruct (IH Hn') as (_ & _ & _ & _ & Hs). rewrite Hs in Hf.
    pose proof (pos_INR n) as Hpos.
    assert (Hstep : Rmin (Rmin (INR n * acceleration) maxSpeed
                          + acceleration) maxSpeed
                    = Rmin (INR (S n) * acceleration) maxSpeed).
    { rewrite S_INR. unfold_consts. unfold Rmin; rcases; lra. }
    rewrite Hstep in Hf.
    assert (Hcov : covered n + Rmin (INR (S n) * acceleration) maxSpeed
                   = covered (S n) /\ 0 <= covered (S n) <= 50).
    { unfold covered. rewrite S_INR. unfold_consts.
      destruct (Nat.leb_spec n 37) as [H37 | H37];
        destruct (Nat.leb_spec (S n) 37) as [H37' | H37'].
      - pose proof (INR_le_const _ _ H37') as Hb.
        rewrite S_INR in Hb; simpl in Hb.
        unfold Rmin; rcases; split; nra.
      - assert (n = 37%nat) by lia; subst n. simpl.
        unfold Rmin; rcases; split; lra.
      - lia.
      - pose proof (INR_ge_const _ _ H37) as Hb1.
        pose proof (INR_le_const _ _ Hn) as Hb2.
        rewrite S_INR in Hb2. simpl in Hb1, Hb2.
        unfold Rmin; rcases; split; lra. }
    destruct Hcov as [Hcov Hin]. rewrite Hcov in Hf.
    destruct (Rlt_dec boundary (Rabs (covered (S n)))) as [Hout |];
      [| exact Hf].
    exfalso. revert Hout. unfold boundary, Rabs. rcases; lra.
Qed.

(** Frame 185 carries [z] to 50.024: the wall clamps it and halves the
    speed. *)
Lemma gas_run_hits_wall :
  straight (run initial (repeat gas 185)) 50 0.15.
Proof.
  rewrite run_repeat_S.
  pose proof (gas_run_straight 184 (Nat.le_refl _)) as H184.
  pose proof (straight_frame _ gas _ _ H184 eq_refl eq_refl) as Hf.
  cbn zeta in Hf.
  rewrite speed_handleInput_accelerate in Hf by reflexivity.
  destruct H184 as (_ & _ & _ & _ & Hs). rewrite Hs in Hf.
  assert (H1 : Rmin (INR 184 * acceleration) maxSpeed = 0.3).
  { rewrite INR_IZR_INZ. simpl. unfold_consts. unfold Rmin; rcases; lra. }
  assert (H2 : covered 184 = 49.724).
  { unfold covered. rewrite INR_IZR_INZ. simpl. lra. }
  rewrite H1, H2 in Hf.
  assert (H3 : Rmin (0.3 + acceleration) maxSpeed = 0.3)
    by (unfold_consts; unfold Rmin; rcases; lra).
  rewrite H3 in Hf.
  destruct (Rlt_dec boundary (Rabs (49.724 + 0.3))) as [_ | Hin].
  - replace (Math.sign (49.724 + 0.3) * boundary) with 50 in Hf
      by (unfold Math.sign, boundary; rcases; lra).
    replace (0.3 * 0.5) with 0.15 in Hf by lra.
    exact Hf.
  - exfalso. apply Hin. unfold boundary, Rabs. rcases; lra.
Qed.

Lemma accelerating_speed ins : forall v k,
  speed v = Rmin (INR k * acceleration) maxSpeed ->
  Forall (fun i => accelerate i = true) ins ->
  clamp_free v ins ->
  speed (run v ins) = Rmin (INR (k + length ins) * acceleration) maxSpeed.
Proof.
  induction ins as [| i rest IH]; intros v k Hs Hall Hfree; simpl.
  - now rewrite Nat.add_0_r.
  - inversion Hall as [| ? ? Hi Hr]; subst.
    destruct Hfree as [Hnc Hfree].
    replace (k + S (length rest))%nat with (S k + length rest)%nat by lia.
    apply IH; try assumption.
    unfold update. rewrite speed_applyPhysics_inside.
    + rewrite speed_handleInput_accelerate, Hs, S_INR by assumption.
      unfold_consts. unfold Rmin; rcases; lra.
    + unfold clamps in Hnc. lra.
    + unfold clamps in Hnc. lra.
Qed.

Lemma far_from_wall_clamp_free ins : forall v d,
  speed_in_range (speed v) ->
  Rabs (x (position v)) <= d -> Rabs (z (position v)) <= d ->
  d + 0.3 * INR (length ins) <= boundary ->
  clamp_free v ins.
Proof.
  induction ins as [| i rest IH]; intros v d Hs Hx Hz Hd; simpl;
    [exact I |].
  change (length (i :: rest)) with (S (length rest)) in Hd.
  rewrite S_INR in Hd. pose proof (pos_INR (length rest)) as Hpos.
  assert (Hd1 : d + 0.3 <= boundary) by lra.
  destruct (update_far_from_wall v i d Hs Hx Hz Hd1) as (Hsp & Hx' & Hz').
  split.
  - pose proof (speed_in_range_Rabs _ (handleInput_speed_in_range v i Hs))
      as Hs'.
    pose proof (Rabs_sin_mult (rotation (handleInput v i))
                              (speed (handleInput v i))) as Hsin.
    pose proof (Rabs_cos_mult (rotation (handleInput v i))
                              (speed (handleInput v i))) as Hcos.
    pose proof (Rabs_triang (x (position v))
                  (sin (rotation (handleInput v i))
                   * speed (handleInput v i))) as Htx.
    pose proof (Rabs_triang (z (position v))
                  (cos (rotation (handleInput v i))
                   * speed (handleInput v i))) as Htz.
    unfold clamps, movedX, movedZ.
    change (position (handleInput v i)) with (position v).
    lra.
  - apply (IH _ (d + 0.3)); try assumption.
    + now apply update_speed_in_range.
    + lra.
Qed.

(** C9 (amended): from rest with accelerate held on every frame (any
    steering), as long as no frame of the run is clamped at the arena
    boundary the speed after [n] frames is [min (n * 0.008) 0.3]: below
    the cap for [n < 38] and exactly 0.3 from frame 38 on.  From the
    constructed vehicle no run of up to 166 frames is clamped, whatever
    the inputs. *)
Theorem C9_acceleration_profile_until_wall :
  (forall (ins : list EngineInput) (v : t),
     speed v = 0 ->
     Forall (fun i => accelerate i = true) ins ->
     clamp_free v ins ->
     speed (run v ins) = Rmin (INR (length ins) * acceleration) maxSpeed /\
     ((length ins < 38)%nat -> speed (run v ins) < maxSpeed) /\
     ((38 <= length ins)%nat -> speed (run v ins) = maxSpeed)) /\
  (forall ins : list EngineInput,
     (length ins <= 166)%nat -> clamp_free initial ins).
Proof.
  split.
  - intros ins v Hs Hall Hfree.
    assert (H : speed (run v ins)
                = Rmin (INR (length ins) * acceleration) maxSpeed).
    { apply (accelerating_speed ins v 0); try assumption.
      rewrite Hs. unfold_consts; simpl. unfold Rmin; rcases; lra. }
    split; [exact H | split]; intros Hn; rewrite H.
    + assert (Hn' : (length ins <= 37)%nat) by lia.
      apply INR_le_const in Hn'. simpl in Hn'.
      unfold_consts. unfold Rmin; rcases; lra.
    + apply INR_ge_const in Hn. simpl in Hn.
      unfold_consts. unfold Rmin; rcases; lra.
  - intros ins Hn. apply (far_from_wall_clamp_free ins initial 0).
    + exact initial_speed_in_range.
    + simpl. rewrite Rabs_R0. lra.
    + simpl. rewrite Rabs_R0. lra.
    + apply INR_le_const in Hn. simpl in Hn. unfold boundary. lra.
Qed.

Lemma C9_acceleration_profile_until_wall_witness :
  speed initial = 0 /\
  Forall (fun i => accelerate i = true) (repeat gas 50) /\
  clamp_free initial (repeat gas 50) /\
  speed (run initial (repeat gas 50)) = maxSpeed.
Proof.
  assert (Hall : Forall (fun i => accelerate i = true) (repeat gas 50))
    by (apply Forall_forall; intros i Hi;
        apply repeat_spec in Hi; subst i; reflexivity).
  assert (Hlen : (length (repeat gas 50) <= 166)%nat)
    by (rewrite repeat_length; lia).
  assert (Hfree : clamp_free initial (repeat gas 50))
    by (exact (proj2 C9_acceleration_profile_until_wall _ Hlen)).
  split; [reflexivity | split; [exact Hall | split; [exact Hfree |]]].
  apply (proj1 C9_acceleration_profile_until_wall
           (repeat gas 50) initial eq_refl Hall Hfree).
  rewrite repeat_length. lia.
Defined.

(** C9 as stated fails once the wall is reached: holding only accelerate
    from the constructed vehicle (origin, heading 0) for 185 frames drives
    it into the [z = 50] boundary, and the clamp of frame 185 halves the
    speed to 0.15, while [min (185 * 0.008) 0.3] is 0.3. *)
Lemma C9_wall_counterexample :
  Forall (fun i => accelerate i = true) (repeat gas 185) /\
  speed (run initial (repeat gas 185)) = 0.15 /\
  speed (run initial (repeat gas 185))
    <> Rmin (INR 185 * acceleration) maxSpeed.
Proof.
  split.
  - apply Forall_forall; intros i Hi.
    apply repeat_spec in Hi; subst i; reflexivity.
  - destruct gas_run_hits_wall as (_ & _ & _ & _ & Hs).
    split; [exact Hs |]. rewrite Hs.
    rewrite INR_IZR_INZ. simpl. unfold_consts. unfold Rmin; rcases; lra.
Qed.

(** *** Coasting *)

Lemma coasting_handleInput v i :
  coasting i ->
  (0 < speed v -> speed (handleInput v i) = Rmax 0 (speed v - deceleration)) /\
  (speed v < 0 -> speed (handleInput v i) = Rmin 0 (speed v + deceleration)) /\
  (speed v = 0 -> speed (handleInput v i) = 0) /\
  Rabs (speed (handleInput v i)) = Rmax 0 (Rabs (speed v) - deceleration).
Proof.
  intros [Ha Hb]. unfold handleInput; simpl. rewrite Ha, Hb.
  unfold_consts.
  repeat split; try intros H; unfold Rmin, Rmax, Rabs; rcases; lra.
Qed.

Lemma Rabs_speed_applyPhysics h :
  Rabs (speed (applyPhysics h)) <= Rabs (speed h).
Proof.
  rewrite speed_applyPhysics. unfold Rabs. rcases; lra.
Qed.

Lemma coasting_run_stops ins : forall v,
  Forall coasting ins ->
  Rabs (speed v) <= INR (length ins) * deceleration ->
  speed (run v ins) = 0.
Proof.
  induction ins as [| i rest IH]; intros v Hall Hs.
  - simpl in *. revert Hs. unfold Rabs. rcases; lra.
  - inversion Hall as [| ? ? Hi Hr]; subst.
    change (length (i :: rest)) with (S (length rest)) in Hs.
    rewrite S_INR in Hs. simpl. apply IH; [assumption |].
    pose proof (Rabs_speed_applyPhysics (handleInput v i)) as H1.
    destruct (coasting_handleInput v i Hi) as (_ & _ & _ & H2).
    pose proof (pos_INR (length rest)) as Hpos.
    unfold update. revert Hs H2. unfold_consts. unfold Rmax. rcases; nra.
Qed.

Lemma frames_to_stop (s : R) :
  exists N : nat, Rabs s <= INR N * deceleration.
Proof.
  destruct (archimed (Rabs s / deceleration)) as [Hup _].
  pose proof (Rabs_pos s) as Hpos.
  assert (Hd : 0 < deceleration) by (unfold deceleration; lra).
  assert (Hq : 0 <= Rabs s / deceleration)
    by (apply Rmult_le_pos; [lra | left; now apply Rinv_0_lt_compat]).
  assert (Hz : (0 <= up (Rabs s / deceleration))%Z).
  { apply le_IZR. lra. }
  exists (Z.to_nat (up (Rabs s / deceleration))).
  rewrite INR_IZR_INZ, Z2Nat.id by assumption.
  apply Rmult_lt_compat_r with (r := deceleration) in Hup; [| assumption].
  unfold Rdiv in Hup. rewrite Rmult_assoc, Rinv_l, Rmult_1_r in Hup by lra.
  lra.
Qed.

(** C6 (amended): with neither accelerate nor brake held, the decay step
    of every frame moves the speed towards 0 by [deceleration] without
    overshooting ([|speed|] becomes [max 0 (|speed| - deceleration)]); the
    frame leaves it at that value unless the boundary clamps it, which
    halves it once per clamped coordinate.  So every coasting [update]
    strictly decreases [|speed|] while the speed is not 0, a speed of
    exactly 0 stays exactly 0, and from every starting speed there is a
    number of frames after which the speed is exactly 0 for good. *)
Theorem C6_coasting_decays_to_rest :
  (forall v i, coasting i ->
     (0 < speed v ->
        speed (handleInput v i) = Rmax 0 (speed v - deceleration)) /\
     (speed v < 0 ->
        speed (handleInput v i) = Rmin 0 (speed v + deceleration)) /\
     Rabs (speed (handleInput v i))
       = Rmax 0 (Rabs (speed v) - deceleration) /\
     (~ clamps (handleInput v i) ->
        speed (update v i) = speed (handleInput v i)) /\
     speed (update v i)
       = speed (handleInput v i)
         * (if Rlt_dec boundary (Rabs (movedX (handleInput v i)))
            then 0.5 else 1)
         * (if Rlt_dec boundary (Rabs (movedZ (handleInput v i)))
            then 0.5 else 1) /\
     (speed v <> 0 -> Rabs (speed (update v i)) < Rabs (speed v)) /\
     (speed v = 0 -> speed (update v i) = 0)) /\
  (forall v, exists N : nat, forall ins,
     Forall coasting ins -> (N <= length ins)%nat ->
     speed (run v ins) = 0).
Proof.
  split.
  - intros v i Hi.
    destruct (coasting_handleInput v i Hi) as (Hp & Hn & Hz & Ha).
    pose proof (Rabs_speed_applyPhysics (handleInput v i)) as Hle.
    split; [exact Hp | split; [exact Hn | split; [exact Ha |]]].
    split; [| split; [| split]].
    + intros Hnc. unfold clamps in Hnc. unfold update.
      apply speed_applyPhysics_inside; lra.
    + unfold update. rewrite speed_applyPhysics. rcases; lra.
    + intros Hne. unfold update. rewrite Ha in Hle.
      revert Hle. unfold_consts. unfold Rmax.
      generalize (Rabs_pos_lt _ Hne). rcases; lra.
    + intros H0. specialize (Hz H0). unfold update.
      rewrite Hz in Hle. revert Hle. rewrite Rabs_R0.
      unfold Rabs. rcases; lra.
  - intros v. destruct (frames_to_stop (speed v)) as [N HN].
    exists N. intros ins Hall Hlen.
    apply coasting_run_stops; [assumption |].
    apply le_INR in Hlen.
    assert (Hd : 0 < deceleration) by (unfold deceleration; lra).
    nra.
Qed.

Lemma C6_coasting_decays_to_rest_witness :
  let v := run initial (repeat gas 50) in
  coasting idle /\ speed v <> 0 /\
  Rabs (speed (update v idle)) < Rabs (speed v).
Proof.
  cbn zeta.
  assert (Hc : coasting idle) by (split; reflexivity).
  assert (Hs : speed (run initial (repeat gas 50)) <> 0).
  { destruct (gas_run_straight 50) as (_ & _ & _ & _ & Hs); [lia |].
    rewrite Hs, INR_IZR_INZ. simpl. unfold_consts.
    unfold Rmin; rcases; lra. }
  split; [exact Hc | split; [exact Hs |]].
  apply (proj1 C6_coasting_decays_to_rest _ idle Hc). exact Hs.
Defined.

(** C6 as stated fails on a frame that the boundary clamps: after the 185
    accelerating frames that end at the [z = 50] wall with speed 0.15, one
    frame without input decays the speed to 0.14 and the clamp halves it to
    0.07, so [|speed|] drops by 0.08, not by [deceleration] = 0.01. *)
Lemma C6_wall_counterexample :
  let v := run initial (repeat gas 185) in
  reachable v /\ coasting idle /\
  speed v = 0.15 /\ speed (update v idle) = 0.07 /\
  Rabs (speed v) - Rabs (speed (update v idle)) <> deceleration.
Proof.
  cbn zeta.
  pose proof gas_run_hits_wall as Hw.
  pose proof (straight_frame _ idle _ _ Hw eq_refl eq_refl) as Hf.
  cbn zeta in Hf.
  destruct Hw as (_ & _ & _ & _ & Hs).
  assert (Hc : coasting idle) by (split; reflexivity).
  destruct (coasting_handleInput (run initial (repeat gas 185)) idle Hc)
    as (Hp & _).
  rewrite Hp in Hf by (rewrite Hs; lra). rewrite Hs in Hf.
  assert (H1 : Rmax 0 (0.15 - deceleration) = 0.14)
    by (unfold deceleration, Rmax; rcases; lra).
  rewrite H1 in Hf.
  destruct (Rlt_dec boundary (Rabs (50 + 0.14))) as [_ | Hin].
  - destruct Hf as (_ & _ & _ & _ & Hs').
    split; [apply reachable_run; constructor |].
    split; [exact Hc | split; [exact Hs | split]].
    + rewrite Hs'. lra.
    + rewrite Hs', Hs. unfold deceleration, Rabs. rcases; lra.
  - exfalso. apply Hin. unfold boundary, Rabs. rcases; lra.
Qed.

(** *** Pinned against the far wall *)

Lemma straight_speed_eq v zp s s' :
  straight v zp s -> s = s' -> straight v zp s'.
Proof. intros H <-. exact H. Qed.

(** A vehicle driving straight at the [z = 50] wall with the accelerator
    held is clamped again: it stays at the wall with half the speed the
    acceleration block gave it. *)
Lemma pinned_gas_frame v s :
  straight v 50 s -> 0 <= s ->
  straight (update v gas) 50 (Rmin (s + acceleration) maxSpeed * 0.5).
Proof.
  intros Hst Hs.
  pose proof (straight_frame _ gas _ _ Hst eq_refl eq_refl) as Hf.
  cbn zeta in Hf.
  rewrite speed_handleInput_accelerate in Hf by reflexivity.
  destruct Hst as (_ & _ & _ & _ & Hsp). rewrite Hsp in Hf.
  assert (Hpos : 0 < Rmin (s + acceleration) maxSpeed)
    by (unfold_consts; unfold Rmin; rcases; lra).
  destruct (Rlt_dec boundary (Rabs (50 + Rmin (s + acceleration) maxSpeed)))
    as [_ | Hin].
  - replace (Math.sign (50 + Rmin (s + acceleration) maxSpeed) * boundary)
      with 50 in Hf
      by (unfold Math.sign, boundary; rcases; lra).
    exact Hf.
  - exfalso. apply Hin. unfold boundary, Rabs. rcases; lra.
Qed.

Ltac pinned_next H :=
  eapply straight_speed_eq;
  [ rewrite run_repeat_S; apply pinned_gas_frame; [exact H | lra]
  | unfold_consts; unfold Rmin; rcases; lra ].

(** After 192 frames of [gas] from the constructed vehicle it is pinned at
    the [z = 50] wall, each frame speeding up by 0.008 and being halved by
    the clamp, with the [speed] field at 0.009109375. *)
Lemma gas_run_pinned :
  straight (run initial (repeat gas 192)) 50 0.009109375.
Proof.
  pose proof gas_run_hits_wall as H185.
  assert (H186 : straight (run initial (repeat gas 186)) 50 0.079)
    by (pinned_next H185).
  assert (H187 : straight (run initial (repeat gas 187)) 50 0.0435)
    by (pinned_next H186).
  assert (H188 : straight (run initial (repeat gas 188)) 50 0.02575)
    by (pinned_next H187).
  assert (H189 : straight (run initial (repeat gas 189)) 50 0.016875)
    by (pinned_next H188).
  assert (H190 : straight (run initial (repeat gas 190)) 50 0.0124375)
    by (pinned_next H189).
  assert (H191 : straight (run initial (repeat gas 191)) 50 0.01021875)
    by (pinned_next H190).
  pinned_next H191.
Qed.

(** C7 as stated fails when [speed] is read as the field between frames:
    after 192 accelerating frames the vehicle is pinned at the [z = 50]
    wall with speed 0.009109375.  One more frame with accelerate and left
    held raises the speed to 0.017109375 before the steering test, which
    therefore steers ([currentTurn] -0.03) and turns the heading; the
    clamp then halves the speed to about 0.0086.  The speed is within the
    deadzone before and after the frame, and the heading has changed. *)
Lemma C7_pinned_at_wall_counterexample :
  let v := run initial (repeat gas 192) in
  let i := keys true false true false in
  reachable v /\
  Rabs (speed v) <= 0.01 /\
  Rabs (speed (update v i)) <= 0.01 /\
  rotation (update v i) <> rotation v /\
  ~ Rabs (speed (handleInput v i)) <= 0.01.
Proof.
  cbn zeta.
  set (v := run initial (repeat gas 192)).
  destruct gas_run_pinned as (Hx & Hz & Hr & Hc & Hs).
  fold v in Hx, Hz, Hr, Hc, Hs.
  assert (Hs' : speed (handleInput v (keys true false true false))
                = 0.017109375).
  { rewrite speed_handleInput_accelerate by reflexivity. rewrite Hs.
    unfold_consts. unfold Rmin; rcases; lra. }
  assert (Hc' : currentTurn (handleInput v (keys true false true false))
                = -0.03).
  { unfold handleInput in Hs' |- *. cbn [speed currentTurn] in Hs' |- *.
    rewrite Hs'. cbn [turnLeft keys isMobileControlsActive keyA arrowLeft orb].
    rewrite Hc. unfold_consts.
    destruct (Rlt_dec 0.01 (Rabs 0.017109375)) as [_ | Hn].
    - unfold Rmax; rcases; lra.
    - exfalso. apply Hn. unfold Rabs; rcases; lra. }
  assert (Hr' : rotation (handleInput v (keys true false true false))
                = -0.03 * 0.017109375 * 0.1).
  { change (rotation (handleInput v (keys true false true false)))
      with (rotation v
            + currentTurn (handleInput v (keys true false true false))
              * Rabs (speed (handleInput v (keys true false true false)))
              * 0.1).
    rewrite Hr, Hc', Hs'. unfold Rabs. rcases; lra. }
  split; [apply reachable_run; constructor |].
  split; [rewrite Hs; unfold Rabs; rcases; lra |].
  split; [| split].
  - (* the clamp on z halves the speed *)
    set (h := handleInput v (keys true false true false)) in *.
    assert (Hcos : 0 < cos (rotation h)).
    { rewrite Hr'. pose proof PI2_1. apply cos_gt_0; lra. }
    assert (Hmz : boundary < Rabs (movedZ h)).
    { unfold movedZ. change (position h) with (position v).
      rewrite Hz, Hs'. unfold boundary, Rabs. rcases; nra. }
    unfold update. fold h. rewrite speed_applyPhysics, Hs'.
    destruct (Rlt_dec boundary (Rabs (movedZ h))); [| contradiction].
    unfold Rabs. rcases; lra.
  - rewrite rotation_update, Hr', Hr. lra.
  - rewrite Hs'. unfold Rabs. rcases; lra.
Qed.

End VehicleFacts.

Module TrackFacts.

Import Three RacingGame.

Lemma distanceToSquared_nonneg a b : 0 <= distanceToSquared a b.
Proof.
  unfold distanceToSquared. cbn zeta.
  pose proof (Rle_0_sqr (x a - x b)) as Hx.
  pose proof (Rle_0_sqr (y a - y b)) as Hy.
  pose proof (Rle_0_sqr (z a - z b)) as Hz.
  unfold Rsqr in *. lra.
Qed.

Lemma sqrt_9 : sqrt 9 = 3.
Proof. replace 9 with (3 * 3) by lra. apply sqrt_square. lra. Qed.

(** [distanceTo a b < 3] is a comparison of the squared distance with 9. *)
Lemma distanceTo_lt_3 a b :
  distanceTo a b < 3 <-> distanceToSquared a b < 9.
Proof.
  unfold distanceTo. pose proof (distanceToSquared_nonneg a b) as Hpos.
  rewrite <- sqrt_9 at 1. split; intros H.
  - apply sqrt_lt_0_alt in H. exact H.
  - apply sqrt_lt_1_alt. lra.
Qed.

Lemma planarDistance_lt_3 a b :
  planarDistance a b < 3
  <-> (x a - x b) * (x a - x b) + (z a - z b) * (z a - z b) < 9.
Proof.
  unfold planarDistance. rewrite <- sqrt_9 at 1. split; intros H.
  - apply sqrt_lt_0_alt in H. exact H.
  - apply sqrt_lt_1_alt.
    pose proof (Rle_0_sqr (x a - x b)) as Hx.
    pose proof (Rle_0_sqr (z a - z b)) as Hz.
    unfold Rsqr in *. lra.
Qed.

Lemma createTrack_y : Forall (fun cp => y cp = 0) createTrack.
Proof.
  unfold createTrack. apply Forall_map, Forall_forall.
  intros i _. reflexivity.
Qed.

(** In the game the vehicle rides 0.5 above the checkpoints, so the test
    [distance < 3] holds on a planar disc of squared radius 8.75. *)
Lemma distanceTo_lt_3_in_game v cp :
  BurgerVehicle.reachable v -> y cp = 0 ->
  let p := BurgerVehicle.getPosition v in
  distanceTo p cp < 3
  <-> (x p - x cp) * (x p - x cp) + (z p - z cp) * (z p - z cp) < 8.75.
Proof.
  intros Hr Hy p. rewrite distanceTo_lt_3. unfold distanceToSquared.
  cbn zeta. subst p. unfold BurgerVehicle.getPosition.
  rewrite (VehicleFacts.reachable_y v Hr), Hy. split; intros H; lra.
Qed.

(** The outcome of [checkCheckpoints] when the cursor is in range. *)
Lemma checkCheckpoints_in_range g now1 now2 cp :
  nth_error (checkpoints g) (currentCheckpoint g) = Some cp ->
  checkCheckpoints g now1 now2 =
  if Rlt_dec (distanceTo (BurgerVehicle.getPosition (vehicle g)) cp) 3 then
    if (length (checkpoints g) <=? S (currentCheckpoint g))%nat then
      Some (mk (vehicle g) (checkpoints g) 0 (S (lapCount g)) now2
               (if lt_number ((now1 - startTime g) / 1000) (bestTime g)
                then Finite ((now1 - startTime g) / 1000) else bestTime g))
    else
      Some (mk (vehicle g) (checkpoints g) (S (currentCheckpoint g))
               (lapCount g) (startTime g) (bestTime g))
  else Some g.
Proof.
  intros Hcp. unfold checkCheckpoints. rewrite Hcp.
  destruct (length (checkpoints g) =? 0)%nat eqn:Hlen; [| reflexivity].
  apply Nat.eqb_eq, length_zero_iff_nil in Hlen.
  rewrite Hlen in Hcp. destruct (currentCheckpoint g); discriminate.
Qed.

Lemma lt_number_min lapTime b :
  (if lt_number lapTime b then Finite lapTime else b) = min_number b lapTime.
Proof.
  destruct b as [r |]; simpl; [| reflexivity].
  unfold Rmin. destruct (Rlt_dec lapTime r), (Rle_dec r lapTime);
    try reflexivity; f_equal; lra.
Qed.

(** C1: on a track of [K] checkpoints with the cursor on the last one
    ([K - 1]) and the vehicle closer than 3 to it, [checkCheckpoints]
    returns normally with the cursor back at 0, [lapCount] one higher, the
    lap time [(Date.now() - startTime) / 1000] folded into [bestTime] by
    minimum (it becomes the lap time itself while [bestTime] is still
    [Infinity]), and [startTime] set to the current clock reading; the
    checkpoint list and the vehicle are untouched. *)
Theorem C1_last_checkpoint_completes_lap :
  forall (g : t) (now1 now2 : R) (cp : Vector3),
    S (currentCheckpoint g) = length (checkpoints g) ->
    nth_error (checkpoints g) (currentCheckpoint g) = Some cp ->
    distanceTo (BurgerVehicle.getPosition (vehicle g)) cp < 3 ->
    exists g',
      checkCheckpoints g now1 now2 = Some g' /\
      currentCheckpoint g' = 0%nat /\
      lapCount g' = S (lapCount g) /\
      bestTime g' = min_number (bestTime g) ((now1 - startTime g) / 1000) /\
      (bestTime g = Infinity ->
         bestTime g' = Finite ((now1 - startTime g) / 1000)) /\
      startTime g' = now2 /\
      checkpoints g' = checkpoints g /\
      vehicle g' = vehicle g.
Proof.
  intros g now1 now2 cp HK Hcp Hd.
  rewrite (checkCheckpoints_in_range g now1 now2 cp Hcp).
  destruct (Rlt_dec _ 3) as [_ | Hn]; [| contradiction].
  rewrite <- HK, Nat.leb_refl.
  eexists; split; [reflexivity |]. simpl.
  rewrite lt_number_min.
  repeat split. intros Hb. rewrite Hb. reflexivity.
Qed.

Lemma length_createTrack : length createTrack = 8%nat.
Proof. reflexivity. Qed.

Lemma C1_last_checkpoint_completes_lap_witness :
  S (currentCheckpoint onLastCheckpoint)
    = length (checkpoints onLastCheckpoint) /\
  nth_error (checkpoints onLastCheckpoint)
            (currentCheckpoint onLastCheckpoint) = Some lastCheckpoint /\
  distanceTo (BurgerVehicle.getPosition (vehicle onLastCheckpoint))
             lastCheckpoint < 3 /\
  exists g',
    checkCheckpoints onLastCheckpoint 12000 12001 = Some g' /\
    currentCheckpoint g' = 0%nat /\ lapCount g' = 1%nat /\
    bestTime g' = Finite ((12000 - 0) / 1000) /\ startTime g' = 12001.
Proof.
  assert (HK : S (currentCheckpoint onLastCheckpoint)
               = length (checkpoints onLastCheckpoint)) by reflexivity.
  assert (Hcp : nth_error (checkpoints onLastCheckpoint)
                  (currentCheckpoint onLastCheckpoint) = Some lastCheckpoint)
    by reflexivity.
  assert (Hd : distanceTo (BurgerVehicle.getPosition
                             (vehicle onLastCheckpoint)) lastCheckpoint < 3).
  { apply distanceTo_lt_3. unfold distanceToSquared. simpl. lra. }
  split; [exact HK | split; [exact Hcp | split; [exact Hd |]]].
  destruct (C1_last_checkpoint_completes_lap onLastCheckpoint 12000 12001
              lastCheckpoint HK Hcp Hd)
    as (g' & Hg & Hc & Hl & _ & Hb & Hs & _).
  exists g'.
  split; [exact Hg | split; [exact Hc | split; [exact Hl | split]]].
  - exact (Hb eq_refl).
  - exact Hs.
Defined.

(** C3 (amended): with the cursor on a checkpoint, [checkCheckpoints]
    measures the full three-dimensional distance (x, y and z) from the
    vehicle position to that checkpoint; when it is strictly below 3 the
    cursor advances (to the next index, or from the last one to 0), and
    when it is 3 or more the whole game state (cursor, [lapCount],
    [startTime], [bestTime]) is returned unchanged. *)
Theorem C3_advance_iff_within_3d_distance :
  forall (g : t) (now1 now2 : R) (cp : Vector3),
    nth_error (checkpoints g) (currentCheckpoint g) = Some cp ->
    let p := BurgerVehicle.getPosition (vehicle g) in
    let d := sqrt ((x p - x cp) * (x p - x cp) + (y p - y cp) * (y p - y cp)
                   + (z p - z cp) * (z p - z cp)) in
    (d < 3 ->
       exists g',
         checkCheckpoints g now1 now2 = Some g' /\
         currentCheckpoint g'
           = (S (currentCheckpoint g) mod length (checkpoints g))%nat /\
         g' <> g) /\
    (3 <= d -> checkCheckpoints g now1 now2 = Some g).
Proof.
  intros g now1 now2 cp Hcp p d.
  rewrite (checkCheckpoints_in_range g now1 now2 cp Hcp).
  change (distanceTo (BurgerVehicle.getPosition (vehicle g)) cp) with d.
  assert (Hlt : (currentCheckpoint g < length (checkpoints g))%nat)
    by (apply nth_error_Some; rewrite Hcp; discriminate).
  split; intros Hd; destruct (Rlt_dec d 3) as [Hl | Hn]; try lra;
    try reflexivity.
  destruct (Nat.leb_spec (length (checkpoints g)) (S (currentCheckpoint g)))
    as [Hwrap | Hnext]; eexists; (split; [reflexivity |]); simpl.
  - assert (HK : S (currentCheckpoint g) = length (checkpoints g)) by lia.
    rewrite HK, Nat.Div0.mod_same. split; [reflexivity |].
    intros Heq. apply (f_equal lapCount) in Heq. simpl in Heq. lia.
  - rewrite Nat.mod_small by assumption. split; [reflexivity |].
    intros Heq. apply (f_equal currentCheckpoint) in Heq. simpl in Heq. lia.
Qed.

Lemma nth_error_createTrack_0 :
  exists cp, nth_error createTrack 0 = Some cp /\
             x cp = 30 /\ y cp = 0 /\ z cp = 0.
Proof.
  eexists; split; [reflexivity |]. simpl.
  replace (0 / _ * PI * 2) with 0 by (unfold Rdiv; ring).
  rewrite cos_0, sin_0. unfold trackRadius. repeat split; lra.
Qed.

Lemma C3_advance_iff_within_3d_distance_witness :
  exists cp,
    nth_error (checkpoints nearFirstCheckpoint)
              (currentCheckpoint nearFirstCheckpoint) = Some cp /\
    checkCheckpoints nearFirstCheckpoint 1000 1000 = Some nearFirstCheckpoint.
Proof.
  destruct nth_error_createTrack_0 as (cp & Hcp & Hx & Hy & Hz).
  exists cp. split; [exact Hcp |].
  apply (proj2 (C3_advance_iff_within_3d_distance
                  nearFirstCheckpoint 1000 1000 cp Hcp)).
  simpl. rewrite Hx, Hy, Hz. rewrite <- sqrt_9 at 1.
  apply sqrt_le_1_alt. lra.
Defined.

(** C3 as stated fails: the vehicle rides at height 0.5 and the checkpoints
    lie at height 0.  At [(32.98, 0.5, 0)] the planar distance to the first
    checkpoint [(30, 0, 0)] is 2.98, below the radius 3, but the distance
    the code compares is [sqrt (2.98^2 + 0.5^2) > 3] and the cursor stays. *)
Lemma C3_planar_counterexample :
  exists cp,
    nth_error (checkpoints nearFirstCheckpoint)
              (currentCheckpoint nearFirstCheckpoint) = Some cp /\
    planarDistance
      (BurgerVehicle.getPosition (vehicle nearFirstCheckpoint)) cp < 3 /\
    checkCheckpoints nearFirstCheckpoint 1000 1000 = Some nearFirstCheckpoint /\
    currentCheckpoint nearFirstCheckpoint = 0%nat.
Proof.
  destruct nth_error_createTrack_0 as (cp & Hcp & Hx & Hy & Hz).
  exists cp. split; [exact Hcp | split; [| split; [| reflexivity]]].
  - apply planarDistance_lt_3. simpl. rewrite Hx, Hz. lra.
  - rewrite (checkCheckpoints_in_range nearFirstCheckpoint 1000 1000 cp Hcp).
    destruct (Rlt_dec _ 3) as [Hl | _]; [| reflexivity].
    exfalso. apply distanceTo_lt_3 in Hl. revert Hl.
    unfold distanceToSquared. simpl. rewrite Hx, Hy, Hz. lra.
Qed.

(** *** Whole laps *)

Lemma skipn_cons_nth_error {A} (c : nat) : forall (l : list A) a tl,
  skipn c l = a :: tl -> nth_error l c = Some a /\ skipn (S c) l = tl.
Proof.
  induction c as [| c IH]; intros l a tl H.
  - destruct l; simpl in *; [discriminate |]. injection H as -> ->. auto.
  - destruct l as [| b l]; simpl in H; [discriminate |].
    apply IH in H. exact H.
Qed.

(** Crossing the remaining checkpoints in order, one per call, completes
    exactly one lap. *)
Lemma in_order_crossings_complete_lap vs : forall g,
  Forall2 crosses vs (skipn (currentCheckpoint g) (checkpoints g)) ->
  (currentCheckpoint g < length (checkpoints g))%nat ->
  exists g',
    checks g vs = Some g' /\
    currentCheckpoint g' = 0%nat /\
    lapCount g' = S (lapCount g) /\
    checkpoints g' = checkpoints g.
Proof.
  induction vs as [| [[v now1] now2] rest IH]; intros g Hall Hlt.
  - destruct (skipn (currentCheckpoint g) (checkpoints g)) eqn:Hsk;
      [| inversion Hall].
    assert (Hlen : length (skipn (currentCheckpoint g) (checkpoints g))
                   = 0%nat) by (rewrite Hsk; reflexivity).
    rewrite length_skipn in Hlen. lia.
  - inversion Hall as [| ? cp ? tl Hcross Hrest Heq1 Heq2]; subst.
    symmetry in Heq2.
    destruct (skipn_cons_nth_error _ _ _ _ Heq2) as [Hcp Htl].
    clear Heq2. subst tl. simpl.
    rewrite (checkCheckpoints_in_range (withVehicle g v) now1 now2 cp Hcp).
    unfold crosses in Hcross. simpl in Hcross.
    cbn [withVehicle vehicle checkpoints currentCheckpoint lapCount
         startTime bestTime].
    destruct (Rlt_dec _ 3) as [_ | Hn]; [| contradiction].
    destruct (Nat.leb_spec (length (checkpoints g)) (S (currentCheckpoint g)))
      as [Hwrap | Hnext].
    + assert (Hnil : skipn (S (currentCheckpoint g)) (checkpoints g) = [])
        by (apply skipn_all2; lia).
      rewrite Hnil in Hrest. inversion Hrest; subst. simpl.
      eexists; split; [reflexivity |]. simpl. auto.
    + set (g1 := mk v (checkpoints g) (S (currentCheckpoint g)) (lapCount g)
                    (startTime g) (bestTime g)).
      destruct (IH g1) as (g' & Hg' & Hc & Hl & Hcps).
      * exact Hrest.
      * simpl. lia.
      * exists g'. auto.
Qed.

Lemma parked_lap laps start best now1 now2 :
  checkCheckpoints (mk parked [mkVector3 30 0 0] 0 laps start best) now1 now2
  = Some (mk parked [mkVector3 30 0 0] 0 (S laps) now2
             (min_number best ((now1 - start) / 1000))).
Proof.
  rewrite (checkCheckpoints_in_range
             (mk parked [mkVector3 30 0 0] 0 laps start best) now1 now2
             (mkVector3 30 0 0) eq_refl).
  cbn [vehicle checkpoints currentCheckpoint lapCount startTime bestTime
       length Nat.leb].
  rewrite lt_number_min.
  destruct (Rlt_dec _ 3) as [_ | Hn]; [reflexivity |].
  exfalso. apply Hn, distanceTo_lt_3. unfold distanceToSquared. simpl. lra.
Qed.

(** Lap times 12.0, 9.5 and 11.0 seconds in a row leave [bestTime] at
    9.5. *)
Lemma best_lap_example :
  exists g',
    checks oneCheckpoint
      [(parked, 12000, 12000); (parked, 21500, 21500);
       (parked, 32500, 32500)] = Some g' /\
    lapCount g' = 3%nat /\
    bestTime g' = Finite 9.5.
Proof.
  unfold checks, oneCheckpoint, withVehicle.
  cbn [vehicle checkpoints currentCheckpoint lapCount startTime bestTime].
  rewrite !parked_lap.
  eexists; split; [reflexivity |]. simpl. split; [reflexivity |].
  f_equal. unfold Rmin. rcases; lra.
Qed.

(** *** The cursor *)

Lemma checkCheckpoints_cursor g now1 now2 :
  (currentCheckpoint g < length (checkpoints g))%nat ->
  exists g',
    checkCheckpoints g now1 now2 = Some g' /\
    checkpoints g' = checkpoints g /\
    vehicle g' = vehicle g /\
    (g' = g
     \/ ((S (currentCheckpoint g) < length (checkpoints g))%nat /\
         currentCheckpoint g' = S (currentCheckpoint g) /\
         lapCount g' = lapCount g)
     \/ (S (currentCheckpoint g) = length (checkpoints g) /\
         currentCheckpoint g' = 0%nat /\
         lapCount g' = S (lapCount g))) /\
    (currentCheckpoint g' < length (checkpoints g'))%nat /\
    (forall cp,
       nth_error (checkpoints g) (currentCheckpoint g) = Some cp ->
       3 <= distanceTo (BurgerVehicle.getPosition (vehicle g)) cp ->
       g' = g).
Proof.
  intros Hlt.
  destruct (nth_error (checkpoints g) (currentCheckpoint g)) as [cp |] eqn:Hcp;
    [| apply nth_error_None in Hcp; lia].
  rewrite (checkCheckpoints_in_range g now1 now2 cp Hcp).
  destruct (Rlt_dec _ 3) as [Hd | Hd].
  - destruct (Nat.leb_spec (length (checkpoints g)) (S (currentCheckpoint g)))
      as [Hwrap | Hnext]; eexists; (split; [reflexivity |]); simpl;
      (split; [reflexivity |]); (split; [reflexivity |]).
    + split; [right; right; repeat split; lia |].
      split; [lia |]. intros cp' Hcp' Hfar.
      injection Hcp' as <-. lra.
    + split; [right; left; repeat split; lia |].
      split; [lia |]. intros cp' Hcp' Hfar.
      injection Hcp' as <-. lra.
  - exists g. repeat split; auto.
Qed.

Lemma update_cursor g f :
  (currentCheckpoint g < length (checkpoints g))%nat ->
  exists g',
    update g f = Some g' /\
    checkpoints g' = checkpoints g /\
    (currentCheckpoint g' < length (checkpoints g'))%nat.
Proof.
  intros Hlt. unfold update.
  set (g1 := mk _ _ _ _ _ _).
  destruct (checkCheckpoints_cursor g1 (clock1 f) (clock2 f) Hlt)
    as (g' & Hg & Hcps & _ & _ & Hin & _).
  exists g'. auto.
Qed.

Lemma run_cursor fs : forall g,
  (currentCheckpoint g < length (checkpoints g))%nat ->
  exists g',
    run g fs = Some g' /\
    checkpoints g' = checkpoints g /\
    (currentCheckpoint g' < length (checkpoints g'))%nat.
Proof.
  induction fs as [| f rest IH]; intros g Hlt; simpl.
  - exists g. auto.
  - destruct (update_cursor g f Hlt) as (g1 & Hg1 & Hcps & Hin).
    rewrite Hg1. destruct (IH g1 Hin) as (g' & Hrun & Hcps' & Hin').
    exists g'. repeat split; auto. congruence.
Qed.

(** C5: on a non-empty track with the cursor in range, one
    [checkCheckpoints] call returns normally and either changes nothing, or
    moves the cursor to the next index, or wraps it from the last index to
    0 (counting a lap); it changes nothing whenever the vehicle is 3 or more
    away from the checkpoint under the cursor, however close it is to any
    other checkpoint.  The cursor stays below the number of checkpoints,
    after the call and after every run of frames of the constructed
    game. *)
Theorem C5_cursor_single_step_in_range :
  (forall (g : t) (now1 now2 : R),
     checkpoints g <> [] ->
     (currentCheckpoint g < length (checkpoints g))%nat ->
     exists g',
       checkCheckpoints g now1 now2 = Some g' /\
       checkpoints g' = checkpoints g /\
       (g' = g
        \/ ((S (currentCheckpoint g) < length (checkpoints g))%nat /\
            currentCheckpoint g' = S (currentCheckpoint g) /\
            lapCount g' = lapCount g)
        \/ (S (currentCheckpoint g) = length (checkpoints g) /\
            currentCheckpoint g' = 0%nat /\
            lapCount g' = S (lapCount g))) /\
       (currentCheckpoint g' < length (checkpoints g'))%nat /\
       (forall cp,
          nth_error (checkpoints g) (currentCheckpoint g) = Some cp ->
          3 <= distanceTo (BurgerVehicle.getPosition (vehicle g)) cp ->
          g' = g)) /\
  (forall (now : R) (fs : list Frame),
     exists g',
       run (create now) fs = Some g' /\
       (currentCheckpoint g' < length (checkpoints g'))%nat).
Proof.
  split.
  - intros g now1 now2 _ Hlt.
    destruct (checkCheckpoints_cursor g now1 now2 Hlt)
      as (g' & Hg & Hcps & _ & Hstep & Hin & Hfar).
    exists g'. auto.
  - intros now fs.
    destruct (run_cursor fs (create now)) as (g' & Hrun & _ & Hin).
    + unfold create; cbn [currentCheckpoint checkpoints].
      rewrite length_createTrack. lia.
    + exists g'. auto.
Qed.

Lemma C5_cursor_single_step_in_range_witness :
  checkpoints onLastCheckpoint <> [] /\
  (currentCheckpoint onLastCheckpoint
   < length (checkpoints onLastCheckpoint))%nat /\
  exists g',
    checkCheckpoints onLastCheckpoint 12000 12001 = Some g' /\
    (currentCheckpoint g' < length (checkpoints g'))%nat.
Proof.
  assert (Hne : checkpoints onLastCheckpoint <> []) by discriminate.
  assert (Hlt : (currentCheckpoint onLastCheckpoint
                 < length (checkpoints onLastCheckpoint))%nat)
    by (unfold onLastCheckpoint; cbn [currentCheckpoint checkpoints];
        rewrite length_createTrack; lia).
  split; [exact Hne | split; [exact Hlt |]].
  destruct (proj1 C5_cursor_single_step_in_range
              onLastCheckpoint 12000 12001 Hne Hlt)
    as (g' & Hg & _ & _ & Hin & _).
  exists g'. split; assumption.
Defined.

End TrackFacts.

Module SwordFacts.

Import Three Sword.

Lemma update_collected s : collected s = true -> update s = s.
Proof. intros H. unfold update. now rewrite H. Qed.

Lemma checkCollision_collected s p r :
  collected s = true -> checkCollision s p r = (s, false).
Proof. intros H. unfold checkCollision. now rewrite H. Qed.

Lemma dispose_collected s : collected s = true -> dispose s = s.
Proof. intros H. unfold dispose. now rewrite H. Qed.

Lemma step_collected s c : collected s = true -> step s c = s.
Proof.
  intros H. destruct c; simpl.
  - now apply update_collected.
  - now rewrite checkCollision_collected.
  - now apply dispose_collected.
Qed.

Lemma run_collected cs : forall s, collected s = true -> run s cs = s.
Proof.
  induction cs as [| c rest IH]; intros s H; simpl; [reflexivity |].
  rewrite (step_collected s c H). now apply IH.
Qed.

Lemma checkCollision_uncollected s p r :
  collected s = false ->
  checkCollision s p r =
  if Rlt_dec (distanceTo (meshPosition s) p) (r + 0.5)
  then (collect s, true) else (s, false).
Proof. intros H. unfold checkCollision. now rewrite H. Qed.

(** C10: once [collected] is true, [checkCollision] returns false and
    leaves the sword as it is for every player position and radius,
    [update] does nothing, and after any sequence of [update],
    [checkCollision] and [dispose] calls the sword is still the same, so
    the flag is still true.  While [collected] is false, [checkCollision]
    returns true exactly when the distance from the sword's mesh position
    to the player position is strictly below [playerRadius + 0.5], and it
    sets the flag exactly then. *)
Theorem C10_collected_is_final :
  (forall s : t,
     collected s = true ->
     (forall p r, checkCollision s p r = (s, false)) /\
     update s = s /\
     (forall cs, run s cs = s /\ collected (run s cs) = true)) /\
  (forall (s : t) (p : Vector3) (r : R),
     collected s = false ->
     let d := distanceTo (meshPosition s) p in
     (d < r + 0.5 ->
        checkCollision s p r = (collect s, true) /\
        collected (fst (checkCollision s p r)) = true) /\
     (r + 0.5 <= d -> checkCollision s p r = (s, false)) /\
     (snd (checkCollision s p r) = true <-> d < r + 0.5) /\
     (collected (fst (checkCollision s p r)) = true <-> d < r + 0.5)).
Proof.
  split.
  - intros s H. split; [| split].
    + intros p r. now apply checkCollision_collected.
    + now apply update_collected.
    + intros cs. rewrite (run_collected cs s H). auto.
  - intros s p r H d.
    rewrite (checkCollision_uncollected s p r H). fold d.
    destruct (Rlt_dec d (r + 0.5)) as [Hd | Hd]; simpl.
    + repeat split; auto; lra.
    + rewrite H. repeat split; try (intros; lra); try discriminate;
        try reflexivity.
Qed.

Lemma C10_collected_is_final_witness :
  let s := create GOLD (mkVector3 1 0.5 2) 0 in
  let p := mkVector3 1 0.5 2 in
  collected s = false /\
  distanceTo (meshPosition s) p < 0.4 + 0.5 /\
  checkCollision s p 0.4 = (collect s, true) /\
  collected (collect s) = true /\
  checkCollision (collect s) p 0.4 = (collect s, false) /\
  update (collect s) = collect s.
Proof.
  cbn zeta.
  set (s := create GOLD (mkVector3 1 0.5 2) 0).
  set (p := mkVector3 1 0.5 2).
  assert (Hu : collected s = false) by reflexivity.
  assert (Hd : distanceTo (meshPosition s) p < 0.4 + 0.5).
  { unfold distanceTo, distanceToSquared. simpl.
    replace ((1 - 1) * (1 - 1) + (0.5 - 0.5) * (0.5 - 0.5)
             + (2 - 2) * (2 - 2)) with 0 by ring.
    rewrite sqrt_0. lra. }
  assert (Hc : collected (collect s) = true) by reflexivity.
  destruct (proj2 C10_collected_is_final s p 0.4 Hu) as (Hhit & _).
  destruct (proj1 C10_collected_is_final (collect s) Hc) as (Hcc & Hup & _).
  split; [exact Hu | split; [exact Hd | split; [exact (proj1 (Hhit Hd)) |]]].
  split; [exact Hc | split; [exact (Hcc p 0.4) | exact Hup]].
Defined.

End SwordFacts.

(** * Further properties *)

Module VehicleMore.

Import Three BurgerVehicle VehicleFacts.

(** *** The arena *)

Lemma applyPhysics_in_arena h :
  Rabs (x (position (applyPhysics h))) <= boundary /\
  Rabs (z (position (applyPhysics h))) <= boundary.
Proof.
  unfold applyPhysics, Math.sign, boundary.
  split; rcases; simpl; unfold Rabs in *; rcases; lra.
Qed.

(** X1: whatever state it starts from, [update] leaves the vehicle inside
    the square [|x| <= 50], [|z| <= 50]; every state of the game's vehicle
    is inside it, at height 0.5. *)
Theorem X1_vehicle_stays_in_arena :
  (forall v i,
     Rabs (x (position (update v i))) <= boundary /\
     Rabs (z (position (update v i))) <= boundary) /\
  (forall v, reachable v ->
     Rabs (x (position v)) <= boundary /\
     Rabs (z (position v)) <= boundary /\
     y (position v) = 0.5).
Proof.
  split.
  - intros v i. apply applyPhysics_in_arena.
  - intros v Hr. pose proof (reachable_y v Hr) as Hy.
    destruct Hr as [| v i Hr].
    + simpl. rewrite Rabs_R0. unfold boundary. repeat split; lra.
    + destruct (applyPhysics_in_arena (handleInput v i)) as [Hx Hz].
      repeat split; assumption.
Qed.

Lemma X1_vehicle_stays_in_arena_witness :
  reachable (update initial gas) /\
  Rabs (x (position (update initial gas))) <= boundary.
Proof.
  assert (Hr : reachable (update initial gas)) by (repeat constructor).
  split; [exact Hr |].
  exact (proj1 (proj2 X1_vehicle_stays_in_arena _ Hr)).
Defined.

Lemma reachable_in_arena v :
  reachable v ->
  Rabs (x (position v)) <= boundary /\ Rabs (z (position v)) <= boundary.
Proof.
  intros Hr. destruct Hr as [| v i Hr].
  - simpl. rewrite Rabs_R0. unfold boundary. split; lra.
  - apply applyPhysics_in_arena.
Qed.

(** *** How far one frame moves the vehicle *)

Lemma clamp_step (a m : R) :
  Rabs a <= boundary ->
  Rabs ((if Rlt_dec boundary (Rabs m) then Math.sign m * boundary else m) - a)
  <= Rabs (m - a).
Proof.
  unfold Math.sign, boundary. intros Ha.
  destruct (Rlt_dec 50 (Rabs m)) as [Hm | Hm]; [| lra].
  revert Ha Hm. unfold Rabs. rcases; lra.
Qed.

Lemma position_applyPhysics h :
  position (applyPhysics h) =
  mkVector3
    (if Rlt_dec boundary (Rabs (movedX h))
     then Math.sign (movedX h) * boundary else movedX h)
    (y (position h))
    (if Rlt_dec boundary (Rabs (movedZ h))
     then Math.sign (movedZ h) * boundary else movedZ h).
Proof.
  unfold applyPhysics. fold (movedX h) (movedZ h).
  rcases; reflexivity.
Qed.

Lemma update_displacement v i :
  Rabs (x (position v)) <= boundary -> Rabs (z (position v)) <= boundary ->
  let h := handleInput v i in
  Rabs (x (position (update v i)) - x (position v))
    <= Rabs (sin (rotation h) * speed h) /\
  Rabs (z (position (update v i)) - z (position v))
    <= Rabs (cos (rotation h) * speed h).
Proof.
  intros Hx Hz h. unfold update. fold h.
  rewrite position_applyPhysics. cbn [x z].
  change (position v) with (position h) in *.
  split.
  - eapply Rle_trans; [apply clamp_step; assumption |].
    unfold movedX. right. f_equal. ring.
  - eapply Rle_trans; [apply clamp_step; assumption |].
    unfold movedZ. right. f_equal. ring.
Qed.

Lemma Rabs_le_sqr a b : Rabs a <= Rabs b -> a * a <= b * b.
Proof. unfold Rabs. rcases; nra. Qed.

(** X2: from a position inside the arena, one [update] moves the vehicle
    by at most the speed of that frame, along each axis and as a distance in
    the plane; for the game's vehicle that is at most 0.3 per frame. *)
Theorem X2_frame_displacement_bounded :
  forall v i,
    Rabs (x (position v)) <= boundary -> Rabs (z (position v)) <= boundary ->
    let dx := x (position (update v i)) - x (position v) in
    let dz := z (position (update v i)) - z (position v) in
    let s := speed (handleInput v i) in
    Rabs dx <= Rabs s /\ Rabs dz <= Rabs s /\
    dx * dx + dz * dz <= s * s /\
    (speed_in_range (speed v) -> Rabs s <= 0.3).
Proof.
  intros v i Hx Hz dx dz s.
  destruct (update_displacement v i Hx Hz) as [Hdx Hdz].
  cbn zeta in Hdx, Hdz. fold dx in Hdx. fold dz in Hdz. fold s in Hdx, Hdz.
  set (r := rotation (handleInput v i)) in *.
  split; [| split; [| split]].
  - eapply Rle_trans; [exact Hdx | apply Rabs_sin_mult].
  - eapply Rle_trans; [exact Hdz | apply Rabs_cos_mult].
  - apply Rabs_le_sqr in Hdx. apply Rabs_le_sqr in Hdz.
    pose proof (sin2_cos2 r) as Hsc. unfold Rsqr in Hsc.
    replace (s * s) with ((sin r * sin r + cos r * cos r) * (s * s))
      by (rewrite Hsc; ring).
    lra.
  - intros Hs. subst s.
    now apply speed_in_range_Rabs, handleInput_speed_in_range.
Qed.

Lemma X2_frame_displacement_bounded_witness :
  Rabs (x (position initial)) <= boundary /\
  Rabs (z (position initial)) <= boundary /\
  speed_in_range (speed initial) /\
  Rabs (z (position (update initial gas)) - z (position initial))
    <= Rabs (speed (handleInput initial gas)) /\
  Rabs (speed (handleInput initial gas)) <= 0.3.
Proof.
  assert (Hx : Rabs (x (position initial)) <= boundary)
    by (simpl; rewrite Rabs_R0; unfold boundary; lra).
  assert (Hz : Rabs (z (position initial)) <= boundary)
    by (simpl; rewrite Rabs_R0; unfold boundary; lra).
  destruct (X2_frame_displacement_bounded initial gas Hx Hz)
    as (_ & Hdz & _ & Hs).
  split; [exact Hx | split; [exact Hz | split]].
  - exact initial_speed_in_range.
  - split; [exact Hdz | exact (Hs initial_speed_in_range)].
Defined.

(** *** Heading *)

(** X3: one [update] of the game's vehicle turns the heading by exactly
    [currentTurn * |speed| * 0.1], taken after the input is applied and
    before any boundary clamp, which is at most 0.03 rad per frame. *)
Theorem X3_heading_step_bounded :
  forall v i, reachable v ->
    rotation (update v i) - rotation v
      = currentTurn (update v i) * Rabs (speed (handleInput v i)) * 0.1 /\
    Rabs (rotation (update v i) - rotation v) <= 0.03.
Proof.
  intros v i Hr.
  rewrite rotation_update, currentTurn_update.
  assert (Heq : rotation (handleInput v i) - rotation v
                = currentTurn (handleInput v i)
                  * Rabs (speed (handleInput v i)) * 0.1).
  { change (rotation (handleInput v i))
      with (rotation v + currentTurn (handleInput v i)
                         * Rabs (speed (handleInput v i)) * 0.1).
    ring. }
  split; [exact Heq |]. rewrite Heq.
  pose proof (handleInput_turn_in_range v i (reachable_turn_in_range v Hr))
    as Ht.
  pose proof (speed_in_range_Rabs _
                (handleInput_speed_in_range v i
                   (reachable_speed_in_range v Hr))) as Hs.
  pose proof (Rabs_pos (speed (handleInput v i))) as Hpos.
  unfold turn_in_range in Ht.
  apply Rabs_le. split; nra.
Qed.

Lemma X3_heading_step_bounded_witness :
  reachable initial /\
  Rabs (rotation (update initial gas) - rotation initial) <= 0.03.
Proof.
  split; [constructor |].
  exact (proj2 (X3_heading_step_bounded initial gas reachable_initial)).
Defined.

(** *** Reading the controls *)

(** X4: the joystick never asks for two opposite things at once: with the
    mobile controls active, accelerate and brake are never both set, nor
    are left and right.  On the keyboard both can be held, and then
    accelerate wins over brake and left wins over right. *)
Theorem X4_opposite_intents :
  (forall i, isMobileControlsActive i = true ->
     (accelerate i && brake i = false) /\
     (turnLeft i && turnRight i = false)) /\
  (forall v i, accelerate i = true ->
     speed (handleInput v i) = Rmin (speed v + acceleration) maxSpeed) /\
  (forall v i, turnLeft i = true ->
     0.01 < Rabs (speed (handleInput v i)) ->
     currentTurn (handleInput v i) = Rmax (-1) (currentTurn v - turnSpeed)).
Proof.
  split; [| split].
  - intros i Hm. unfold accelerate, brake, turnLeft, turnRight, Rltb.
    rewrite Hm. split; rcases; try reflexivity; lra.
  - intros v i Ha. now apply speed_handleInput_accelerate.
  - intros v i Hl Hs. revert Hs. unfold handleInput; simpl.
    set (s' := if accelerate i then _ else _). intros Hs.
    rewrite Hl. destruct (Rlt_dec 0.01 (Rabs s')); [reflexivity | lra].
Qed.

Lemma X4_opposite_intents_witness :
  let both := keys true true true true in
  accelerate both = true /\
  speed (handleInput initial both) = Rmin (speed initial + acceleration) maxSpeed.
Proof.
  cbn zeta. split; [reflexivity |].
  exact (proj1 (proj2 X4_opposite_intents) initial
           (keys true true true true) eq_refl).
Defined.

(** *** Braking *)

Lemma speed_handleInput_brake v i :
  accelerate i = false -> brake i = true ->
  speed (handleInput v i)
  = Rmax (speed v - deceleration * 1.5) (- maxSpeed * 0.5).
Proof. intros Ha Hb. unfold handleInput; simpl. now rewrite Ha, Hb. Qed.

Lemma braking_speed ins : forall v k,
  speed v = Rmax (- (INR k * (deceleration * 1.5))) (- maxSpeed * 0.5) ->
  Forall (fun i => accelerate i = false /\ brake i = true) ins ->
  clamp_free v ins ->
  speed (run v ins)
  = Rmax (- (INR (k + length ins) * (deceleration * 1.5))) (- maxSpeed * 0.5).
Proof.
  induction ins as [| i rest IH]; intros v k Hs Hall Hfree; simpl.
  - now rewrite Nat.add_0_r.
  - inversion Hall as [| ? ? [Ha Hb] Hr]; subst.
    destruct Hfree as [Hnc Hfree].
    replace (k + S (length rest))%nat with (S k + length rest)%nat by lia.
    apply IH; try assumption.
    unfold update. rewrite speed_applyPhysics_inside.
    + rewrite speed_handleInput_brake, Hs, S_INR by assumption.
      unfold_consts. unfold Rmax; rcases; lra.
    + unfold clamps in Hnc. lra.
    + unfold clamps in Hnc. lra.
Qed.

(** X5: from rest with brake held and accelerate released on every frame,
    as long as no frame is clamped at the boundary the speed after [n]
    frames is [max (- n * 0.015) (-0.15)]: the vehicle reverses, faster by
    0.015 per frame, and is at the reverse cap -0.15 from frame 10 on. *)
Theorem X5_braking_profile :
  forall (ins : list EngineInput) (v : t),
    speed v = 0 ->
    Forall (fun i => accelerate i = false /\ brake i = true) ins ->
    clamp_free v ins ->
    speed (run v ins)
      = Rmax (- (INR (length ins) * (deceleration * 1.5))) (- maxSpeed * 0.5) /\
    ((length ins < 10)%nat -> - maxSpeed * 0.5 < speed (run v ins)) /\
    ((10 <= length ins)%nat -> speed (run v ins) = - maxSpeed * 0.5).
Proof.
  intros ins v Hs Hall Hfree.
  assert (H : speed (run v ins)
              = Rmax (- (INR (length ins) * (deceleration * 1.5)))
                     (- maxSpeed * 0.5)).
  { apply (braking_speed ins v 0); try assumption.
    rewrite Hs. unfold_consts; simpl.
    unfold Rmax; rcases; lra. }
  split; [exact H | split]; intros Hn; rewrite H.
  - assert (Hn' : (length ins <= 9)%nat) by lia.
    apply INR_le_const in Hn'. simpl in Hn'.
    unfold_consts. unfold Rmax; rcases; lra.
  - apply INR_ge_const in Hn. simpl in Hn.
    unfold_consts. unfold Rmax; rcases; lra.
Qed.

Lemma X5_braking_profile_witness :
  let brk := keys false true false false in
  speed initial = 0 /\
  Forall (fun i => accelerate i = false /\ brake i = true) (repeat brk 12) /\
  clamp_free initial (repeat brk 12) /\
  speed (run initial (repeat brk 12)) = - maxSpeed * 0.5.
Proof.
  cbn zeta.
  set (brk := keys false true false false).
  assert (Hall : Forall (fun i => accelerate i = false /\ brake i = true)
                        (repeat brk 12))
    by (apply Forall_forall; intros i Hi;
        apply repeat_spec in Hi; subst i; split; reflexivity).
  assert (Hfree : clamp_free initial (repeat brk 12)).
  { apply (far_from_wall_clamp_free _ initial 0).
    - exact initial_speed_in_range.
    - simpl. rewrite Rabs_R0. lra.
    - simpl. rewrite Rabs_R0. lra.
    - rewrite repeat_length, INR_IZR_INZ. simpl. unfold boundary. lra. }
  split; [reflexivity | split; [exact Hall | split; [exact Hfree |]]].
  apply (X5_braking_profile (repeat brk 12) initial eq_refl Hall Hfree).
  rewrite repeat_length. lia.
Defined.

(** *** Steering while accelerating *)

(** With the accelerator held, a vehicle that already moves forward at
    0.0026 or more passes the steering test, and still moves at 0.0026 or
    more after the frame even if both boundary clamps halve its speed. *)
Lemma accelerating_keeps_steering_live v i :
  accelerate i = true -> 0.0026 <= speed v ->
  0.01 < Rabs (speed (handleInput v i)) /\ 0.0026 <= speed (update v i).
Proof.
  intros Ha Hs.
  assert (Hh : 0.0106 <= speed (handleInput v i)).
  { rewrite speed_handleInput_accelerate by assumption.
    unfold_consts. unfold Rmin; rcases; lra. }
  split.
  - unfold Rabs. rcases; lra.
  - unfold update. rewrite speed_applyPhysics. rcases; lra.
Qed.

Lemma currentTurn_handleInput_left v i :
  turnLeft i = true -> 0.01 < Rabs (speed (handleInput v i)) ->
  currentTurn (handleInput v i) = Rmax (-1) (currentTurn v - turnSpeed).
Proof.
  intros Hl Hs. revert Hs. unfold handleInput; simpl.
  set (s' := if accelerate i then _ else _). intros Hs.
  rewrite Hl. destruct (Rlt_dec 0.01 (Rabs s')); [reflexivity | lra].
Qed.

Lemma currentTurn_handleInput_right v i :
  turnLeft i = false -> turnRight i = true ->
  0.01 < Rabs (speed (handleInput v i)) ->
  currentTurn (handleInput v i) = Rmin 1 (currentTurn v + turnSpeed).
Proof.
  intros Hl Hr Hs. revert Hs. unfold handleInput; simpl.
  set (s' := if accelerate i then _ else _). intros Hs.
  rewrite Hl, Hr. destruct (Rlt_dec 0.01 (Rabs s')); [reflexivity | lra].
Qed.

Lemma steering_left_run ins : forall v,
  0.0026 <= speed v ->
  Forall (fun i => accelerate i = true /\ turnLeft i = true) ins ->
  currentTurn (run v ins)
  = Rmax (-1) (currentTurn v - INR (length ins) * turnSpeed)
  \/ ins = [].
Proof.
  induction ins as [| i rest IH]; intros v Hs Hall; [now right |].
  left. inversion Hall as [| ? ? [Ha Hl] Hr]; subst.
  destruct (accelerating_keeps_steering_live v i Ha Hs) as [Hlive Hs'].
  change (length (i :: rest)) with (S (length rest)). rewrite S_INR.
  pose proof (pos_INR (length rest)) as Hpos.
  simpl run.
  assert (Hc : currentTurn (update v i)
               = Rmax (-1) (currentTurn v - turnSpeed)).
  { rewrite currentTurn_update. now apply currentTurn_handleInput_left. }
  destruct (IH (update v i) Hs' Hr) as [Heq | Hnil].
  - rewrite Heq, Hc. unfold_consts. unfold Rmax; rcases; nra.
  - subst rest. simpl. rewrite Hc. f_equal. ring.
Qed.

Lemma steering_right_run ins : forall v,
  0.0026 <= speed v ->
  Forall (fun i => accelerate i = true /\ turnLeft i = false
                   /\ turnRight i = true) ins ->
  currentTurn (run v ins)
  = Rmin 1 (currentTurn v + INR (length ins) * turnSpeed)
  \/ ins = [].
Proof.
  induction ins as [| i rest IH]; intros v Hs Hall; [now right |].
  left. inversion Hall as [| ? ? (Ha & Hl & Hri) Hr]; subst.
  destruct (accelerating_keeps_steering_live v i Ha Hs) as [Hlive Hs'].
  change (length (i :: rest)) with (S (length rest)). rewrite S_INR.
  pose proof (pos_INR (length rest)) as Hpos.
  simpl run.
  assert (Hc : currentTurn (update v i)
               = Rmin 1 (currentTurn v + turnSpeed)).
  { rewrite currentTurn_update. now apply currentTurn_handleInput_right. }
  destruct (IH (update v i) Hs' Hr) as [Heq | Hnil].
  - rewrite Heq, Hc. unfold_consts. unfold Rmin; rcases; nra.
  - subst rest. simpl. rewrite Hc. f_equal. ring.
Qed.

Lemma accelerating_steering_live ins : forall v,
  0.0026 <= speed v ->
  Forall (fun i => accelerate i = true) ins ->
  VehicleNotions.steering_live v ins.
Proof.
  induction ins as [| i rest IH]; intros v Hs Hall; simpl; [exact I |].
  inversion Hall as [| ? ? Ha Hr]; subst.
  destruct (accelerating_keeps_steering_live v i Ha Hs) as [Hlive Hs'].
  split; [exact Hlive | now apply IH].
Qed.

(** X6: once the vehicle moves forward at 0.0026 or more, holding the
    accelerator keeps the steering live on every later frame, wall or no
    wall: the speed read by the steering test (after the acceleration
    block, before the boundary clamp) is above the deadzone in every frame,
    whatever the clamp does to the speed afterwards.  With left also held
    for [n >= 1] frames the steering intent is
    [max (-1) (currentTurn - n * 0.03)], with right (and not left) held it
    is [min 1 (currentTurn + n * 0.03)].  From a centred wheel full lock is
    reached after 34 frames. *)
Theorem X6_steering_under_acceleration :
  forall (ins : list EngineInput) (v : t),
    0.0026 <= speed v -> ins <> [] ->
    (Forall (fun i => accelerate i = true /\ turnLeft i = true) ins ->
       currentTurn (run v ins)
         = Rmax (-1) (currentTurn v - INR (length ins) * turnSpeed) /\
       (currentTurn v <= 0 -> (34 <= length ins)%nat ->
          currentTurn (run v ins) = -1)) /\
    (Forall (fun i => accelerate i = true /\ turnLeft i = false
                      /\ turnRight i = true) ins ->
       currentTurn (run v ins)
         = Rmin 1 (currentTurn v + INR (length ins) * turnSpeed) /\
       (0 <= currentTurn v -> (34 <= length ins)%nat ->
          currentTurn (run v ins) = 1)) /\
    (Forall (fun i => accelerate i = true) ins ->
       VehicleNotions.steering_live v ins).
Proof.
  intros ins v Hs Hne. split; [| split]; intros Hall.
  - destruct (steering_left_run ins v Hs Hall) as [Heq | Hnil];
      [| contradiction].
    split; [exact Heq |]. intros Hc Hn. rewrite Heq.
    apply INR_ge_const in Hn. simpl in Hn.
    unfold_consts. unfold Rmax; rcases; lra.
  - destruct (steering_right_run ins v Hs Hall) as [Heq | Hnil];
      [| contradiction].
    split; [exact Heq |]. intros Hc Hn. rewrite Heq.
    apply INR_ge_const in Hn. simpl in Hn.
    unfold_consts. unfold Rmin; rcases; lra.
  - now apply accelerating_steering_live.
Qed.

Lemma X6_steering_under_acceleration_witness :
  let v := update initial gas in
  let gasLeft := keys true false true false in
  0.0026 <= speed v /\ repeat gasLeft 40 <> [] /\
  Forall (fun i => accelerate i = true /\ turnLeft i = true)
         (repeat gasLeft 40) /\
  currentTurn (run v (repeat gasLeft 40)) = -1.
Proof.
  cbn zeta.
  set (gasLeft := keys true false true false).
  destruct (gas_run_straight 1) as (_ & _ & _ & Hc & Hs); [lia |].
  change (run initial (repeat gas 1)) with (update initial gas) in Hc, Hs.
  assert (Hv : 0.0026 <= speed (update initial gas)).
  { rewrite Hs. simpl. unfold_consts. unfold Rmin; rcases; lra. }
  assert (Hne : repeat gasLeft 40 <> []) by discriminate.
  assert (Hall : Forall (fun i => accelerate i = true /\ turnLeft i = true)
                        (repeat gasLeft 40))
    by (apply Forall_forall; intros i Hi;
        apply repeat_spec in Hi; subst i; split; reflexivity).
  split; [exact Hv | split; [exact Hne | split; [exact Hall |]]].
  apply (proj1 (X6_steering_under_acceleration _ _ Hv Hne) Hall).
  - rewrite Hc. lra.
  - rewrite repeat_length. lia.
Defined.

(** *** Letting go of the wheel *)

Lemma recentre_step v i :
  turnLeft i = false -> turnRight i = false ->
  Rabs (currentTurn (update v i))
  <= Rmax 0 (Rabs (currentTurn v) - turnSpeed).
Proof.
  intros Hl Hr. rewrite currentTurn_update.
  unfold handleInput; simpl.
  set (s' := if accelerate i then _ else _).
  rewrite Hl, Hr. unfold_consts.
  destruct (Rlt_dec 0.01 (Rabs s')).
  - unfold Rmin, Rmax, Rabs. rcases; lra.
  - rewrite Rabs_R0. unfold Rmax, Rabs. rcases; lra.
Qed.

Lemma recentre_run ins : forall v,
  Forall (fun i => turnLeft i = false /\ turnRight i = false) ins ->
  Rabs (currentTurn (run v ins))
  <= Rmax 0 (Rabs (currentTurn v) - INR (length ins) * turnSpeed).
Proof.
  induction ins as [| i rest IH]; intros v Hall.
  - simpl. pose proof (Rabs_pos (currentTurn v)).
    unfold Rmax. rcases; lra.
  - inversion Hall as [| ? ? [Hl Hr] Hrest]; subst.
    change (length (i :: rest)) with (S (length rest)). rewrite S_INR.
    simpl run. pose proof (IH (update v i) Hrest) as H1.
    pose proof (recentre_step v i Hl Hr) as H2.
    pose proof (pos_INR (length rest)) as Hpos.
    revert H1 H2. unfold_consts. unfold Rmax. rcases; nra.
Qed.

Lemma recentre_sign_step v i :
  turnLeft i = false -> turnRight i = false ->
  (0 <= currentTurn v -> 0 <= currentTurn (update v i)) /\
  (currentTurn v <= 0 -> currentTurn (update v i) <= 0).
Proof.
  intros Hl Hr. rewrite currentTurn_update.
  unfold handleInput; simpl.
  set (s' := if accelerate i then _ else _).
  rewrite Hl, Hr. unfold_consts.
  destruct (Rlt_dec 0.01 (Rabs s')); [| split; intros; lra].
  split; intros H; unfold Rmin, Rmax; rcases; lra.
Qed.

Lemma recentre_sign_run ins : forall v,
  Forall (fun i => turnLeft i = false /\ turnRight i = false) ins ->
  (0 <= currentTurn v -> 0 <= currentTurn (run v ins)) /\
  (currentTurn v <= 0 -> currentTurn (run v ins) <= 0).
Proof.
  induction ins as [| i rest IH]; intros v Hall; simpl; [auto |].
  inversion Hall as [| ? ? [Hl Hr] Hrest]; subst.
  destruct (recentre_sign_step v i Hl Hr) as [Hp Hn].
  destruct (IH (update v i) Hrest) as [Hp' Hn'].
  split; auto.
Qed.

(** X7: with neither left nor right held, every frame brings the steering
    intent towards 0 by at least [turnSpeed] and never across 0: after [n]
    frames [|currentTurn|] is at most [max 0 (|currentTurn| - n * 0.03)] and
    the intent has not changed side; in the game the wheel is centred again
    after at most 34 such frames. *)
Theorem X7_wheel_recentres :
  forall (ins : list EngineInput) (v : t),
    Forall (fun i => turnLeft i = false /\ turnRight i = false) ins ->
    Rabs (currentTurn (run v ins))
      <= Rmax 0 (Rabs (currentTurn v) - INR (length ins) * turnSpeed) /\
    (0 <= currentTurn v -> 0 <= currentTurn (run v ins)) /\
    (currentTurn v <= 0 -> currentTurn (run v ins) <= 0) /\
    (reachable v -> (34 <= length ins)%nat -> currentTurn (run v ins) = 0).
Proof.
  intros ins v Hall.
  pose proof (recentre_run ins v Hall) as H.
  destruct (recentre_sign_run ins v Hall) as [Hp Hn].
  split; [exact H | split; [exact Hp | split; [exact Hn |]]].
  intros Hr Hlen.
  pose proof (reachable_turn_in_range v Hr) as Ht. unfold turn_in_range in Ht.
  apply INR_ge_const in Hlen. simpl in Hlen.
  revert H. unfold_consts. unfold Rmax, Rabs. rcases; lra.
Qed.

Lemma X7_wheel_recentres_witness :
  Forall (fun i => turnLeft i = false /\ turnRight i = false)
         (repeat gas 34) /\
  reachable initial /\
  currentTurn (run initial (repeat gas 34)) = 0.
Proof.
  assert (Hall : Forall (fun i => turnLeft i = false /\ turnRight i = false)
                        (repeat gas 34))
    by (apply Forall_forall; intros i Hi;
        apply repeat_spec in Hi; subst i; split; reflexivity).
  split; [exact Hall | split; [constructor |]].
  apply (proj2 (proj2 (proj2 (X7_wheel_recentres _ initial Hall)))).
  - constructor.
  - rewrite repeat_length. lia.
Defined.

(** *** How far a run moves the vehicle *)

Lemma reachable_drivable v : reachable v -> VehicleNotions.drivable v.
Proof.
  intros Hr. split; [now apply reachable_speed_in_range |].
  now apply reachable_in_arena.
Qed.

Lemma update_drivable v i :
  VehicleNotions.drivable v -> VehicleNotions.drivable (update v i).
Proof.
  intros (Hs & _). split; [now apply update_speed_in_range |].
  apply applyPhysics_in_arena.
Qed.

Lemma run_displacement ins : forall v,
  VehicleNotions.drivable v ->
  Rabs (x (position (run v ins)) - x (position v)) <= 0.3 * INR (length ins) /\
  Rabs (z (position (run v ins)) - z (position v)) <= 0.3 * INR (length ins).
Proof.
  induction ins as [| i rest IH]; intros v Hr.
  - simpl. rewrite !Rminus_diag, Rabs_R0. lra.
  - change (length (i :: rest)) with (S (length rest)). rewrite S_INR.
    simpl run.
    pose proof Hr as (Hsr & Hx & Hz).
    destruct (update_displacement v i Hx Hz) as [Hdx Hdz].
    cbn zeta in Hdx, Hdz.
    pose proof (Rabs_sin_mult (rotation (handleInput v i))
                              (speed (handleInput v i))) as Hsin.
    pose proof (Rabs_cos_mult (rotation (handleInput v i))
                              (speed (handleInput v i))) as Hcos.
    pose proof (speed_in_range_Rabs _
                  (handleInput_speed_in_range v i Hsr)) as Hs.
    destruct (IH (update v i) (update_drivable v i Hr)) as [Hx' Hz'].
    split.
    + replace (x (position (run (update v i) rest)) - x (position v))
        with ((x (position (run (update v i) rest))
               - x (position (update v i)))
              + (x (position (update v i)) - x (position v))) by ring.
      eapply Rle_trans; [apply Rabs_triang |]. lra.
    + replace (z (position (run (update v i) rest)) - z (position v))
        with ((z (position (run (update v i) rest))
               - z (position (update v i)))
              + (z (position (update v i)) - z (position v))) by ring.
      eapply Rle_trans; [apply Rabs_triang |]. lra.
Qed.

(** X18: over a run of [n] frames the position moves by at most [0.3 * n]
    along each axis, from any state inside the arena with its speed between
    the two caps; such states are kept by [update] and include every state
    of the game's vehicle. *)
Theorem X18_run_displacement_bounded :
  (forall (ins : list EngineInput) (v : t),
     VehicleNotions.drivable v ->
     VehicleNotions.drivable (run v ins) /\
     Rabs (x (position (run v ins)) - x (position v))
       <= 0.3 * INR (length ins) /\
     Rabs (z (position (run v ins)) - z (position v))
       <= 0.3 * INR (length ins)) /\
  (forall v, reachable v -> VehicleNotions.drivable v).
Proof.
  split; [| exact reachable_drivable].
  intros ins v Hd. split; [| now apply run_displacement].
  revert v Hd. induction ins as [| i rest IH]; intros v Hd; simpl;
    [exact Hd |].
  apply IH. now apply update_drivable.
Qed.

Lemma X18_run_displacement_bounded_witness :
  VehicleNotions.drivable initial /\
  Rabs (z (position (run initial (repeat gas 50))) - z (position initial))
    <= 0.3 * INR (length (repeat gas 50)).
Proof.
  assert (Hd : VehicleNotions.drivable initial)
    by (exact (proj2 X18_run_displacement_bounded initial reachable_initial)).
  split; [exact Hd |].
  exact (proj2 (proj2 (proj1 X18_run_displacement_bounded
                         (repeat gas 50) initial Hd))).
Defined.

End VehicleMore.

Module ViewFacts.

Import Three VehicleView.

Lemma PI3_gt_1 : 1 < PI / 3.
Proof. pose proof PI2_3_2. lra. Qed.

Lemma handleLook_pitch l p :
  isMobile p = true \/ isPointerLocked p = true ->
  - PI / 3 <= cameraRotationX (handleLook l p) <= PI / 3.
Proof.
  pose proof PI3_gt_1 as Hpi.
  intros H. unfold handleLook.
  destruct (isMobile p); [| destruct (isPointerLocked p)]; simpl.
  - unfold Rmax, Rmin. rcases; lra.
  - unfold Rmax, Rmin. rcases; lra.
  - destruct H; discriminate.
Qed.

Lemma handleLook_pitch_kept l p :
  - PI / 3 <= cameraRotationX l <= PI / 3 ->
  - PI / 3 <= cameraRotationX (handleLook l p) <= PI / 3.
Proof.
  intros Hl.
  destruct (isMobile p) eqn:Hm; [apply handleLook_pitch; now left |].
  destruct (isPointerLocked p) eqn:Hp; [apply handleLook_pitch; now right |].
  unfold handleLook. now rewrite Hm, Hp.
Qed.

(** X8: the free-look pitch is clamped to [[-PI/3, PI/3]]: it is inside
    after every frame whose look input is read (mobile controls active or
    pointer locked), and on every frame from the initial 0.2 on.  The yaw is
    not clamped: it moves by exactly [-0.005] times the horizontal touch
    delta, [-0.002] times the mouse delta under pointer lock, and both
    angles stay put when the desktop pointer is not locked. *)
Theorem X8_look_pitch_clamped :
  (forall l p, isMobile p = true \/ isPointerLocked p = true ->
     - PI / 3 <= cameraRotationX (handleLook l p) <= PI / 3) /\
  (forall ps, - PI / 3 <= cameraRotationX (looks initialLook ps) <= PI / 3) /\
  (forall l p, isMobile p = true ->
     cameraRotationY (handleLook l p)
     = cameraRotationY l - touchDeltaX p * 0.005) /\
  (forall l p, isMobile p = false -> isPointerLocked p = true ->
     cameraRotationY (handleLook l p)
     = cameraRotationY l - mouseDeltaX p * 0.002) /\
  (forall l p, isMobile p = false -> isPointerLocked p = false ->
     handleLook l p = l).
Proof.
  split; [exact handleLook_pitch | split; [| split; [| split]]].
  - intros ps.
    assert (H : forall l, - PI / 3 <= cameraRotationX l <= PI / 3 ->
                - PI / 3 <= cameraRotationX (looks l ps) <= PI / 3).
    { induction ps as [| p rest IH]; intros l Hl; simpl; [exact Hl |].
      apply IH. now apply handleLook_pitch_kept. }
    apply H. simpl. pose proof PI3_gt_1. lra.
  - intros l p Hm. unfold handleLook. now rewrite Hm.
  - intros l p Hm Hp. unfold handleLook. now rewrite Hm, Hp.
  - intros l p Hm Hp. unfold handleLook. now rewrite Hm, Hp.
Qed.

Lemma X8_look_pitch_clamped_witness :
  let p := mkPointerInput true 0 (-1000) false 0 0 in
  isMobile p = true /\
  cameraRotationX (handleLook initialLook p) <= PI / 3 /\
  cameraRotationY (handleLook initialLook p)
    = cameraRotationY initialLook - touchDeltaX p * 0.005.
Proof.
  cbn zeta. split; [reflexivity | split].
  - apply (proj1 X8_look_pitch_clamped). now left.
  - now apply (proj1 (proj2 (proj2 X8_look_pitch_clamped))).
Defined.

(** X9: [updateCamera] puts the camera 12 behind the vehicle along its
    heading and 6 above it: the offset is
    [(-12 sin rotation, 6, -12 cos rotation)], so the camera is always at
    distance [sqrt 180] from the point it looks at, whatever the heading and
    whatever the free-look angles. *)
Theorem X9_camera_follows_behind :
  forall v : BurgerVehicle.t,
    let p := BurgerVehicle.position v in
    let r := BurgerVehicle.rotation v in
    updateCamera v
      = mkVector3 (x p - 12 * sin r) (y p + 6) (z p - 12 * cos r) /\
    distanceTo (updateCamera v) p = sqrt 180.
Proof.
  intros v p r.
  assert (Heq : updateCamera v
                = mkVector3 (x p - 12 * sin r) (y p + 6) (z p - 12 * cos r)).
  { unfold updateCamera. fold p r. cbn zeta.
    rewrite neg_sin, neg_cos. unfold cameraDistance, cameraHeight.
    f_equal; ring. }
  split; [exact Heq |].
  rewrite Heq. unfold distanceTo, distanceToSquared. cbn [x y z]. f_equal.
  pose proof (sin2_cos2 r) as Hsc. unfold Rsqr in Hsc.
  replace 180 with (144 * (sin r * sin r + cos r * cos r) + 36)
    by (rewrite Hsc; ring).
  ring.
Qed.



End ViewFacts.

Module TrackMore.

Import Three RacingGame RaceNotions TrackFacts.

(** *** When [checkCheckpoints] throws *)

(** X11: [checkCheckpoints] throws exactly when the track is not empty and
    the cursor is at or past its end; on an empty track it returns at once
    and changes nothing, whatever the cursor. *)
Theorem X11_checkCheckpoints_failure :
  forall (g : t) (now1 now2 : R),
    (checkCheckpoints g now1 now2 = None
     <-> checkpoints g <> [] /\
         (length (checkpoints g) <= currentCheckpoint g)%nat) /\
    (checkpoints g = [] -> checkCheckpoints g now1 now2 = Some g).
Proof.
  intros g now1 now2. split.
  - split.
    + intros H. unfold checkCheckpoints in H.
      destruct (length (checkpoints g) =? 0)%nat eqn:Hlen; [discriminate |].
      apply Nat.eqb_neq in Hlen.
      destruct (nth_error (checkpoints g) (currentCheckpoint g)) eqn:Hcp.
      * destruct (Rlt_dec _ 3); [| discriminate].
        destruct (_ <=? _)%nat; discriminate.
      * apply nth_error_None in Hcp. split; [| exact Hcp].
        intros Hnil. rewrite Hnil in Hlen. contradiction.
    + intros [Hne Hout]. unfold checkCheckpoints.
      destruct (length (checkpoints g) =? 0)%nat eqn:Hlen.
      * apply Nat.eqb_eq, length_zero_iff_nil in Hlen. contradiction.
      * apply nth_error_None in Hout. now rewrite Hout.
  - intros Hnil. unfold checkCheckpoints. now rewrite Hnil.
Qed.

Lemma X11_checkCheckpoints_failure_witness :
  let g := mk BurgerVehicle.initial [mkVector3 30 0 0] 3 0 0 Infinity in
  checkpoints g <> [] /\
  (length (checkpoints g) <= currentCheckpoint g)%nat /\
  checkCheckpoints g 0 0 = None.
Proof.
  cbn zeta.
  set (g := mk BurgerVehicle.initial [mkVector3 30 0 0] 3 0 0 Infinity).
  assert (Hne : checkpoints g <> []) by discriminate.
  assert (Hout : (length (checkpoints g) <= currentCheckpoint g)%nat)
    by (simpl; lia).
  split; [exact Hne | split; [exact Hout |]].
  exact (proj2 (proj1 (X11_checkCheckpoints_failure g 0 0)) (conj Hne Hout)).
Defined.

(** *** What a run of frames can do to the lap state *)

Lemma le_number_refl b : le_number b b.
Proof. destruct b; simpl; [lra | exact I]. Qed.

Lemma le_number_trans a b c : le_number a b -> le_number b c -> le_number a c.
Proof. destruct a, b, c; simpl; try tauto; lra. Qed.

Lemma le_number_min b lapTime : le_number (min_number b lapTime) b.
Proof.
  destruct b as [r |]; simpl; [| exact I].
  unfold Rmin. rcases; lra.
Qed.

Lemma vehicle_checkCheckpoints g now1 now2 g' :
  checkCheckpoints g now1 now2 = Some g' -> vehicle g' = vehicle g.
Proof.
  unfold checkCheckpoints.
  destruct (length (checkpoints g) =? 0)%nat; [now intros [= <-] |].
  destruct (nth_error _ _); [| discriminate].
  destruct (Rlt_dec _ 3); [| now intros [= <-]].
  destruct (_ <=? _)%nat; now intros [= <-].
Qed.

(** One frame, cursor in range: what it can change. *)
Lemma update_lap_state g f :
  (currentCheckpoint g < length (checkpoints g))%nat ->
  exists g',
    update g f = Some g' /\
    checkpoints g' = checkpoints g /\
    vehicle g' = BurgerVehicle.update (vehicle g) (input f) /\
    (currentCheckpoint g' < length (checkpoints g'))%nat /\
    (lapCount g <= lapCount g' <= S (lapCount g))%nat /\
    (progress g <= progress g' <= S (progress g))%nat /\
    le_number (bestTime g') (bestTime g) /\
    (lapCount g' = lapCount g ->
       bestTime g' = bestTime g /\ startTime g' = startTime g) /\
    (lapCount g' = S (lapCount g) -> bestTime g' <> Infinity).
Proof.
  intros Hlt. unfold update.
  set (g1 := mk _ _ _ _ _ _).
  destruct (nth_error (checkpoints g1) (currentCheckpoint g1)) as [cp |] eqn:Hcp;
    [| apply nth_error_None in Hcp; simpl in Hcp; lia].
  rewrite (checkCheckpoints_in_range g1 (clock1 f) (clock2 f) cp Hcp).
  unfold progress.
  destruct (Rlt_dec _ 3) as [Hd | Hd].
  - destruct (Nat.leb_spec (length (checkpoints g1)) (S (currentCheckpoint g1)))
      as [Hwrap | Hnext]; subst g1;
      cbn [checkpoints currentCheckpoint lapCount] in *;
      eexists; (split; [reflexivity |]); simpl.
    + rewrite lt_number_min.
      repeat split; try lia.
      * apply le_number_min.
      * destruct (bestTime g); discriminate.
    + repeat split; try lia. apply le_number_refl.
  - exists g1. subst g1. simpl. repeat split; try lia. apply le_number_refl.
Qed.

Lemma run_lap_state fs : forall g,
  (currentCheckpoint g < length (checkpoints g))%nat ->
  exists g',
    run g fs = Some g' /\
    checkpoints g' = checkpoints g /\
    vehicle g' = BurgerVehicle.run (vehicle g) (inputs fs) /\
    (currentCheckpoint g' < length (checkpoints g'))%nat /\
    (lapCount g <= lapCount g' <= lapCount g + length fs)%nat /\
    (progress g <= progress g' <= progress g + length fs)%nat /\
    le_number (bestTime g') (bestTime g) /\
    (lapCount g' = lapCount g ->
       bestTime g' = bestTime g /\ startTime g' = startTime g) /\
    (lapCount g < lapCount g' -> bestTime g' <> Infinity)%nat.
Proof.
  induction fs as [| f rest IH]; intros g Hlt.
  - exists g. simpl. repeat split; try lia; auto using le_number_refl.
  - destruct (update_lap_state g f Hlt)
      as (g1 & Hg1 & Hcps1 & Hv1 & Hin1 & Hl1 & Hp1 & Hb1 & Hs1 & Hf1).
    destruct (IH g1 Hin1)
      as (g' & Hg' & Hcps' & Hv' & Hin' & Hl' & Hp' & Hb' & Hs' & Hf').
    exists g'. simpl. rewrite Hg1.
    split; [exact Hg' |]. split; [congruence |].
    split; [rewrite Hv', Hv1; reflexivity |].
    split; [exact Hin' |]. split; [lia |]. split; [lia |].
    split; [eapply le_number_trans; eassumption |].
    split.
    + intros Heq.
      assert (H1 : lapCount g1 = lapCount g) by lia.
      assert (H2 : lapCount g' = lapCount g1) by lia.
      destruct (Hs1 H1) as [E1 E2]. destruct (Hs' H2) as [E3 E4].
      split; congruence.
    + intros Hgt.
      destruct (Nat.eq_dec (lapCount g') (lapCount g1)) as [Heq | Hne].
      * destruct (Hs' Heq) as [-> _]. apply Hf1. lia.
      * apply Hf'. lia.
Qed.

Lemma create_in_range now :
  (currentCheckpoint (create now) < length (checkpoints (create now)))%nat.
Proof.
  unfold create; cbn [currentCheckpoint checkpoints].
  rewrite length_createTrack. lia.
Qed.

Lemma length_checkpoints_create now :
  length (checkpoints (create now)) = 8%nat.
Proof. exact length_createTrack. Qed.

(** X12: from a state with the cursor in range, no run of frames ever
    throws; it leaves the checkpoint list as it is, drives the vehicle
    exactly as the vehicle's own [update] would, never lowers [lapCount] and
    raises it by at most one per frame, and never raises [bestTime];
    [bestTime] and [startTime] are unchanged unless a lap was
    completed. *)
Theorem X12_run_keeps_lap_state_monotone :
  forall (fs : list Frame) (g : t),
    (currentCheckpoint g < length (checkpoints g))%nat ->
    exists g',
      run g fs = Some g' /\
      checkpoints g' = checkpoints g /\
      vehicle g' = BurgerVehicle.run (vehicle g) (inputs fs) /\
      (lapCount g <= lapCount g' <= lapCount g + length fs)%nat /\
      le_number (bestTime g') (bestTime g) /\
      (lapCount g' = lapCount g ->
         bestTime g' = bestTime g /\ startTime g' = startTime g).
Proof.
  intros fs g Hlt.
  destruct (run_lap_state fs g Hlt)
    as (g' & Hg' & Hcps & Hv & _ & Hl & _ & Hb & Hs & _).
  exists g'. auto 10.
Qed.

Lemma X12_run_keeps_lap_state_monotone_witness :
  (currentCheckpoint (create 0) < length (checkpoints (create 0)))%nat /\
  exists g',
    run (create 0) [mkFrame BurgerVehicle.gas 16 16;
                    mkFrame BurgerVehicle.gas 33 33] = Some g' /\
    checkpoints g' = checkpoints (create 0).
Proof.
  pose proof (create_in_range 0) as Hlt.
  split; [exact Hlt |].
  destruct (X12_run_keeps_lap_state_monotone
              [mkFrame BurgerVehicle.gas 16 16; mkFrame BurgerVehicle.gas 33 33]
              (create 0) Hlt) as (g' & Hg' & Hcps & _).
  exists g'. split; [exact Hg' | exact Hcps].
Defined.

(** X13: every frame registers at most one checkpoint: over a run of [n]
    frames the number of checkpoints registered (whole laps times the
    number of checkpoints, plus the cursor) grows by at most [n].  So on a
    track of [K] checkpoints [m] more laps take at least [m * K - cursor]
    frames, and in the constructed game [lapCount] is at most [n / 8] after
    [n] frames. *)
Theorem X13_one_checkpoint_per_frame :
  (forall (fs : list Frame) (g g' : t),
     (currentCheckpoint g < length (checkpoints g))%nat ->
     run g fs = Some g' ->
     (progress g <= progress g' <= progress g + length fs)%nat /\
     ((lapCount g' - lapCount g) * length (checkpoints g)
      <= currentCheckpoint g + length fs)%nat) /\
  (forall (now : R) (fs : list Frame) (g' : t),
     run (create now) fs = Some g' ->
     (8 * lapCount g' <= length fs)%nat).
Proof.
  assert (H : forall fs g g',
            (currentCheckpoint g < length (checkpoints g))%nat ->
            run g fs = Some g' ->
            checkpoints g' = checkpoints g /\
            (progress g <= progress g' <= progress g + length fs)%nat).
  { intros fs g g' Hlt Hrun.
    destruct (run_lap_state fs g Hlt)
      as (g1 & Hg1 & Hcps & _ & _ & _ & Hp & _).
    rewrite Hrun in Hg1. injection Hg1 as <-. auto. }
  split.
  - intros fs g g' Hlt Hrun. destruct (H fs g g' Hlt Hrun) as [Hcps Hp].
    split; [exact Hp |]. unfold progress in Hp. rewrite Hcps in Hp.
    rewrite Nat.mul_sub_distr_r. lia.
  - intros now fs g' Hrun.
    destruct (H fs (create now) g') as [Hcps Hp];
      [apply create_in_range | exact Hrun |].
    unfold progress in Hp. rewrite Hcps, length_checkpoints_create in Hp.
    assert (H0 : lapCount (create now) = 0%nat) by reflexivity.
    assert (H1 : currentCheckpoint (create now) = 0%nat) by reflexivity.
    rewrite H0, H1 in Hp. clear - Hp. lia.
Qed.

Lemma X13_one_checkpoint_per_frame_witness :
  exists g',
    run (create 0) [mkFrame BurgerVehicle.gas 16 16] = Some g' /\
    (8 * lapCount g' <= 1)%nat.
Proof.
  destruct (run_lap_state [mkFrame BurgerVehicle.gas 16 16] (create 0)
              (create_in_range 0)) as (g' & Hg' & _).
  exists g'. split; [exact Hg' |].
  exact (proj2 X13_one_checkpoint_per_frame 0 _ g' Hg').
Defined.

(** X14: in the constructed game [bestTime] is still [Infinity] exactly as
    long as no lap has been completed. *)
Theorem X14_best_time_infinite_until_first_lap :
  forall (now : R) (fs : list Frame) (g' : t),
    run (create now) fs = Some g' ->
    (bestTime g' = Infinity <-> lapCount g' = 0%nat).
Proof.
  intros now fs g' Hrun.
  destruct (run_lap_state fs (create now) (create_in_range now))
    as (g1 & Hg1 & _ & _ & _ & _ & _ & _ & Hs & Hf).
  rewrite Hrun in Hg1. injection Hg1 as <-.
  assert (H0 : lapCount (create now) = 0%nat) by reflexivity.
  assert (H1 : bestTime (create now) = Infinity) by reflexivity.
  rewrite H0 in Hs, Hf. rewrite H1 in Hs.
  split.
  - intros Hb. destruct (Nat.eq_dec (lapCount g') 0) as [Hz | Hn];
      [exact Hz |].
    exfalso. apply Hf; [lia | exact Hb].
  - intros Hz. exact (proj1 (Hs Hz)).
Qed.

Lemma X14_best_time_infinite_until_first_lap_witness :
  run (create 0) [] = Some (create 0) /\
  (bestTime (create 0) = Infinity <-> lapCount (create 0) = 0%nat).
Proof.
  split; [reflexivity |].
  exact (X14_best_time_infinite_until_first_lap 0 [] (create 0) eq_refl).
Defined.

(** *** Best lap *)

Lemma update_best g f :
  (currentCheckpoint g < length (checkpoints g))%nat ->
  exists g',
    update g f = Some g' /\
    (currentCheckpoint g' < length (checkpoints g'))%nat /\
    ((lapCount g' = S (lapCount g) /\
      bestTime g' = min_number (bestTime g) ((clock1 f - startTime g) / 1000) /\
      startTime g' = clock2 f)
     \/ (lapCount g' = lapCount g /\ bestTime g' = bestTime g /\
         startTime g' = startTime g)).
Proof.
  intros Hlt. unfold update.
  set (g1 := mk _ _ _ _ _ _).
  destruct (nth_error (checkpoints g1) (currentCheckpoint g1)) as [cp |] eqn:Hcp;
    [| apply nth_error_None in Hcp; simpl in Hcp; lia].
  rewrite (checkCheckpoints_in_range g1 (clock1 f) (clock2 f) cp Hcp).
  destruct (Rlt_dec _ 3) as [Hd | Hd].
  - destruct (Nat.leb_spec (length (checkpoints g1)) (S (currentCheckpoint g1)))
      as [Hwrap | Hnext]; subst g1;
      cbn [checkpoints currentCheckpoint lapCount] in *;
      eexists; (split; [reflexivity |]); simpl.
    + rewrite lt_number_min. split; [lia |]. left. auto.
    + split; [lia |]. right. auto.
  - exists g1. subst g1. simpl. split; [reflexivity |].
    split; [lia |]. right. auto.
Qed.

(** X28: [bestTime] is the running minimum of the lap times: after any run
    of frames from a state with the cursor in range it equals the minimum
    of its value before the run and of every lap time
    [(Date.now() - startTime) / 1000] computed during the run, and
    [lapCount] has grown by the number of those lap times. *)
Theorem X28_best_time_is_running_minimum :
  forall (fs : list Frame) (g g' : t),
    (currentCheckpoint g < length (checkpoints g))%nat ->
    run g fs = Some g' ->
    bestTime g' = fold_left min_number (lapTimes g fs) (bestTime g) /\
    lapCount g' = (lapCount g + length (lapTimes g fs))%nat.
Proof.
  induction fs as [| f rest IH]; intros g g' Hlt Hrun.
  - simpl in *. injection Hrun as <-. split; [reflexivity | lia].
  - destruct (update_best g f Hlt) as (g1 & Hup & Hin & Hcase).
    simpl in Hrun. rewrite Hup in Hrun.
    destruct (IH g1 g' Hin Hrun) as [Hb Hl].
    cbn [lapTimes]. rewrite Hup.
    destruct Hcase as [(Hlap & Hbest & _) | (Hlap & Hbest & _)].
    + rewrite Hlap, Nat.eqb_refl. cbn [app fold_left length].
      rewrite Hb, Hl, Hbest, Hlap. split; [reflexivity | lia].
    + assert (Hne : (lapCount g1 =? S (lapCount g))%nat = false)
        by (apply Nat.eqb_neq; lia).
      rewrite Hne. cbn [app].
      rewrite Hb, Hl, Hbest, Hlap. split; [reflexivity | lia].
Qed.

Lemma X28_best_time_is_running_minimum_witness :
  exists g',
    (currentCheckpoint oneCheckpoint < length (checkpoints oneCheckpoint))%nat /\
    run oneCheckpoint [mkFrame BurgerVehicle.idle 12000 12000] = Some g' /\
    bestTime g'
    = fold_left min_number
        (lapTimes oneCheckpoint [mkFrame BurgerVehicle.idle 12000 12000])
        (bestTime oneCheckpoint).
Proof.
  assert (Hlt : (currentCheckpoint oneCheckpoint
                 < length (checkpoints oneCheckpoint))%nat) by (simpl; lia).
  destruct (run_lap_state [mkFrame BurgerVehicle.idle 12000 12000]
              oneCheckpoint Hlt) as (g' & Hrun & _).
  exists g'. split; [exact Hlt | split; [exact Hrun |]].
  exact (proj1 (X28_best_time_is_running_minimum _ _ g' Hlt Hrun)).
Defined.

(** *** The layout of the track *)

(** X15: [createTrack] lays out 8 checkpoints, all at height 0 on the
    circle of radius 30 around the origin, the first one at (30, 0, 0). *)
Theorem X15_checkpoints_on_circle :
  length createTrack = 8%nat /\
  Forall (fun cp => x cp * x cp + z cp * z cp = 30 * 30 /\ y cp = 0)
         createTrack /\
  (exists cp, nth_error createTrack 0 = Some cp /\
              x cp = 30 /\ y cp = 0 /\ z cp = 0).
Proof.
  split; [exact length_createTrack | split; [| exact nth_error_createTrack_0]].
  unfold createTrack. apply Forall_map, Forall_forall.
  intros i _. cbn [x y z]. split; [| reflexivity].
  set (a := INR i / INR trackSegments * PI * 2).
  pose proof (sin2_cos2 a) as Hsc. unfold Rsqr in Hsc.
  unfold trackRadius.
  replace (cos a * 30 * (cos a * 30) + sin a * 30 * (sin a * 30))
    with (30 * 30 * (sin a * sin a + cos a * cos a)) by ring.
  rewrite Hsc. ring.
Qed.

(** *** Checkpoints out of reach *)

Lemma distanceTo_lt_3_axes a b :
  distanceTo a b < 3 -> Rabs (x a - x b) < 3 /\ Rabs (z a - z b) < 3.
Proof.
  intros H. apply distanceTo_lt_3 in H. unfold distanceToSquared in H.
  cbn zeta in H.
  pose proof (Rle_0_sqr (x a - x b)) as Hx.
  pose proof (Rle_0_sqr (y a - y b)) as Hy.
  pose proof (Rle_0_sqr (z a - z b)) as Hz.
  unfold Rsqr in *. unfold Rabs. split; rcases; nra.
Qed.

Lemma Rabs_chain a b c d e :
  Rabs (a - b) <= d -> Rabs (b - c) < e -> Rabs (a - c) < d + e.
Proof. unfold Rabs. rcases; lra. Qed.

Lemma far_checkpoint_run fs : forall (g : t) (cp : Vector3) (ax az d : R),
  VehicleNotions.drivable (vehicle g) ->
  nth_error (checkpoints g) (currentCheckpoint g) = Some cp ->
  Rabs (ax - x (BurgerVehicle.position (vehicle g))) <= d ->
  Rabs (az - z (BurgerVehicle.position (vehicle g))) <= d ->
  3 + d + 0.3 * INR (length fs) <= Rabs (ax - x cp) \/
  3 + d + 0.3 * INR (length fs) <= Rabs (az - z cp) ->
  run g fs
  = Some (withVehicle g (BurgerVehicle.run (vehicle g) (inputs fs))).
Proof.
  induction fs as [| f rest IH]; intros g cp ax az d Hr Hcp Hx Hz Hfar.
  - simpl. destruct g; reflexivity.
  - change (length (f :: rest)) with (S (length rest)) in Hfar.
    rewrite S_INR in Hfar. pose proof (pos_INR (length rest)) as Hpos.
    set (v1 := BurgerVehicle.update (vehicle g) (input f)).
    assert (Hr1 : VehicleNotions.drivable v1)
      by (now apply VehicleMore.update_drivable).
    destruct (VehicleMore.run_displacement [input f] (vehicle g) Hr)
      as [Hdx Hdz].
    simpl in Hdx, Hdz. fold v1 in Hdx, Hdz.
    assert (Hx1 : Rabs (ax - x (BurgerVehicle.position v1)) <= d + 0.3).
    { revert Hx Hdx. unfold Rabs. rcases; lra. }
    assert (Hz1 : Rabs (az - z (BurgerVehicle.position v1)) <= d + 0.3).
    { revert Hz Hdz. unfold Rabs. rcases; lra. }
    simpl run. unfold update. fold v1.
    change (mk v1 (checkpoints g) (currentCheckpoint g) (lapCount g)
               (startTime g) (bestTime g)) with (withVehicle g v1).
    rewrite (checkCheckpoints_in_range (withVehicle g v1) _ _ cp Hcp).
    destruct (Rlt_dec _ 3) as [Hd | _].
    + exfalso. apply distanceTo_lt_3_axes in Hd.
      destruct Hd as [Hcx Hcz].
      cbn [withVehicle vehicle BurgerVehicle.getPosition] in Hcx, Hcz.
      pose proof (Rabs_chain _ _ _ _ _ Hx1 Hcx) as Hax.
      pose proof (Rabs_chain _ _ _ _ _ Hz1 Hcz) as Haz.
      destruct Hfar; lra.
    + rewrite (IH (withVehicle g v1) cp ax az (d + 0.3) Hr1 Hcp Hx1 Hz1).
      * reflexivity.
      * destruct Hfar; [left | right]; lra.
Qed.

(** X16: the vehicle moves at most 0.3 per frame along each axis, so a
    checkpoint under the cursor that is farther than [3 + 0.3 * n] from it
    along x or along z cannot be registered within the next [n] frames:
    those frames never throw and change nothing but the vehicle (for a
    vehicle inside the arena with its speed between the caps).  In
    the constructed game the vehicle starts at the centre of the track and
    nothing is registered during the first 90 frames. *)
Theorem X16_far_checkpoint_not_registered :
  (forall (fs : list Frame) (g : t) (cp : Vector3),
     VehicleNotions.drivable (vehicle g) ->
     nth_error (checkpoints g) (currentCheckpoint g) = Some cp ->
     let p := BurgerVehicle.getPosition (vehicle g) in
     3 + 0.3 * INR (length fs) <= Rabs (x p - x cp) \/
     3 + 0.3 * INR (length fs) <= Rabs (z p - z cp) ->
     run g fs
     = Some (withVehicle g (BurgerVehicle.run (vehicle g) (inputs fs)))) /\
  (forall (now : R) (fs : list Frame),
     (length fs <= 90)%nat ->
     run (create now) fs
     = Some (withVehicle (create now)
               (BurgerVehicle.run BurgerVehicle.initial (inputs fs)))).
Proof.
  split.
  - intros fs g cp Hr Hcp p Hfar.
    apply (far_checkpoint_run fs g cp (x p) (z p) 0 Hr Hcp).
    + subst p. unfold BurgerVehicle.getPosition.
      rewrite Rminus_diag, Rabs_R0. lra.
    + subst p. unfold BurgerVehicle.getPosition.
      rewrite Rminus_diag, Rabs_R0. lra.
    + destruct Hfar; [left | right]; lra.
  - intros now fs Hn.
    destruct nth_error_createTrack_0 as (cp & Hcp & Hx & Hy & Hz).
    apply (far_checkpoint_run fs (create now) cp 0 0 0).
    + apply VehicleMore.reachable_drivable. constructor.
    + exact Hcp.
    + simpl. rewrite Rminus_diag, Rabs_R0. lra.
    + simpl. rewrite Rminus_diag, Rabs_R0. lra.
    + left. rewrite Hx. apply VehicleFacts.INR_le_const in Hn. simpl in Hn.
      unfold Rabs. rcases; lra.
Qed.

Lemma X16_far_checkpoint_not_registered_witness :
  let fs := [mkFrame BurgerVehicle.gas 16 16; mkFrame BurgerVehicle.gas 33 33] in
  (length fs <= 90)%nat /\
  run (create 0) fs
  = Some (withVehicle (create 0)
            (BurgerVehicle.run BurgerVehicle.initial (inputs fs))).
Proof.
  cbn zeta.
  assert (Hn : (length [mkFrame BurgerVehicle.gas 16 16;
                        mkFrame BurgerVehicle.gas 33 33] <= 90)%nat)
    by (simpl; lia).
  split; [exact Hn |].
  exact (proj2 X16_far_checkpoint_not_registered 0 _ Hn).
Defined.

(** *** Neighbouring checkpoints *)

Lemma inv_sqrt2_bounds : 0.7071 < 1 / sqrt 2 < 0.7072.
Proof.
  assert (H2 : 0 <= 2) by lra.
  pose proof (sqrt_def 2 H2) as Hd.
  assert (Hpos : 0 < sqrt 2) by (apply sqrt_lt_R0; lra).
  assert (Hq : 1 / sqrt 2 = sqrt 2 / 2).
  { apply Rmult_eq_reg_r with (r := sqrt 2); [| lra].
    unfold Rdiv. rewrite Rmult_1_l, Rinv_l by lra. lra. }
  rewrite Hq. split; nra.
Qed.

Ltac checkpoint_at k i :=
  assert (E : nth_error createTrack k
              = Some (mkVector3
                        (cos (INR i / INR trackSegments * PI * 2) * trackRadius)
                        0
                        (sin (INR i / INR trackSegments * PI * 2) * trackRadius)))
    by reflexivity;
  rewrite E; clear E;
  replace (INR i / INR trackSegments * PI * 2) with (INR k * (PI / 4))
    by (unfold trackSegments; rewrite !INR_IZR_INZ; simpl; lra);
  reflexivity.

Lemma nth_error_createTrack k :
  (k < 8)%nat ->
  nth_error createTrack k
  = Some (mkVector3 (cos (INR k * (PI / 4)) * trackRadius) 0
                    (sin (INR k * (PI / 4)) * trackRadius)).
Proof.
  intros Hk.
  destruct k as [| [| [| [| [| [| [| [| k]]]]]]]]; [.. | lia].
  - checkpoint_at 0%nat 0%nat.
  - checkpoint_at 1%nat 8%nat.
  - checkpoint_at 2%nat 16%nat.
  - checkpoint_at 3%nat 24%nat.
  - checkpoint_at 4%nat 32%nat.
  - checkpoint_at 5%nat 40%nat.
  - checkpoint_at 6%nat 48%nat.
  - checkpoint_at 7%nat 56%nat.
Qed.

(** Cosine and sine of the eight checkpoint angles. *)
Lemma checkpoint_directions :
  let q := 1 / sqrt 2 in
  (cos (INR 0 * (PI / 4)) = 1 /\ sin (INR 0 * (PI / 4)) = 0) /\
  (cos (INR 1 * (PI / 4)) = q /\ sin (INR 1 * (PI / 4)) = q) /\
  (cos (INR 2 * (PI / 4)) = 0 /\ sin (INR 2 * (PI / 4)) = 1) /\
  (cos (INR 3 * (PI / 4)) = - q /\ sin (INR 3 * (PI / 4)) = q) /\
  (cos (INR 4 * (PI / 4)) = -1 /\ sin (INR 4 * (PI / 4)) = 0) /\
  (cos (INR 5 * (PI / 4)) = - q /\ sin (INR 5 * (PI / 4)) = - q) /\
  (cos (INR 6 * (PI / 4)) = 0 /\ sin (INR 6 * (PI / 4)) = -1) /\
  (cos (INR 7 * (PI / 4)) = q /\ sin (INR 7 * (PI / 4)) = - q).
Proof.
  cbn zeta.
  repeat split.
  - replace (INR 0 * (PI / 4)) with 0 by (simpl; lra). apply cos_0.
  - replace (INR 0 * (PI / 4)) with 0 by (simpl; lra). apply sin_0.
  - replace (INR 1 * (PI / 4)) with (PI / 4) by (simpl; lra). apply cos_PI4.
  - replace (INR 1 * (PI / 4)) with (PI / 4) by (simpl; lra). apply sin_PI4.
  - replace (INR 2 * (PI / 4)) with (PI / 2) by (simpl; lra). apply cos_PI2.
  - replace (INR 2 * (PI / 4)) with (PI / 2) by (simpl; lra). apply sin_PI2.
  - replace (INR 3 * (PI / 4)) with (3 * (PI / 4)) by (simpl; lra).
    rewrite cos_3PI4. lra.
  - replace (INR 3 * (PI / 4)) with (3 * (PI / 4)) by (simpl; lra).
    apply sin_3PI4.
  - replace (INR 4 * (PI / 4)) with PI by (simpl; lra). apply cos_PI.
  - replace (INR 4 * (PI / 4)) with PI by (simpl; lra). apply sin_PI.
  - replace (INR 5 * (PI / 4)) with (5 * (PI / 4)) by (simpl; lra).
    rewrite cos_5PI4. lra.
  - replace (INR 5 * (PI / 4)) with (5 * (PI / 4)) by (simpl; lra).
    rewrite sin_5PI4. lra.
  - replace (INR 6 * (PI / 4)) with (3 * (PI / 2)) by (simpl; lra).
    apply cos_3PI2.
  - replace (INR 6 * (PI / 4)) with (3 * (PI / 2)) by (simpl; lra).
    apply sin_3PI2.
  - replace (INR 7 * (PI / 4)) with (2 * PI - PI / 4) by (simpl; lra).
    rewrite cos_minus, cos_2PI, sin_2PI, cos_PI4. lra.
  - replace (INR 7 * (PI / 4)) with (2 * PI - PI / 4) by (simpl; lra).
    rewrite sin_minus, cos_2PI, sin_2PI, cos_PI4, sin_PI4. lra.
Qed.

Lemma neighbours_apart c :
  (c < 8)%nat ->
  exists cp0 cp1,
    nth_error createTrack c = Some cp0 /\
    nth_error createTrack (S c mod 8) = Some cp1 /\
    (21 <= Rabs (x cp0 - x cp1) \/ 21 <= Rabs (z cp0 - z cp1)).
Proof.
  intros Hc.
  pose proof inv_sqrt2_bounds as Hq.
  destruct checkpoint_directions
    as ([Hcos0 Hsin0] & [Hcos1 Hsin1] & [Hcos2 Hsin2] & [Hcos3 Hsin3] & [Hcos4 Hsin4] & [Hcos5 Hsin5]
        & [Hcos6 Hsin6] & [Hcos7 Hsin7]).
  assert (Hmod : (S c mod 8 < 8)%nat) by (apply Nat.mod_upper_bound; lia).
  exists (mkVector3 (cos (INR c * (PI / 4)) * trackRadius) 0
                    (sin (INR c * (PI / 4)) * trackRadius)),
         (mkVector3 (cos (INR (S c mod 8) * (PI / 4)) * trackRadius) 0
                    (sin (INR (S c mod 8) * (PI / 4)) * trackRadius)).
  split; [now apply nth_error_createTrack |].
  split; [now apply nth_error_createTrack |].
  cbn [x z]. unfold trackRadius.
  destruct c as [| [| [| [| [| [| [| [| c]]]]]]]]; [.. | lia].
  - change (1 mod 8)%nat with 1%nat. rewrite Hcos0, Hsin0, Hcos1, Hsin1.
    right. unfold Rabs. rcases; lra.
  - change (2 mod 8)%nat with 2%nat. rewrite Hcos1, Hsin1, Hcos2, Hsin2.
    left. unfold Rabs. rcases; lra.
  - change (3 mod 8)%nat with 3%nat. rewrite Hcos2, Hsin2, Hcos3, Hsin3.
    left. unfold Rabs. rcases; lra.
  - change (4 mod 8)%nat with 4%nat. rewrite Hcos3, Hsin3, Hcos4, Hsin4.
    right. unfold Rabs. rcases; lra.
  - change (5 mod 8)%nat with 5%nat. rewrite Hcos4, Hsin4, Hcos5, Hsin5.
    right. unfold Rabs. rcases; lra.
  - change (6 mod 8)%nat with 6%nat. rewrite Hcos5, Hsin5, Hcos6, Hsin6.
    left. unfold Rabs. rcases; lra.
  - change (7 mod 8)%nat with 7%nat. rewrite Hcos6, Hsin6, Hcos7, Hsin7.
    left. unfold Rabs. rcases; lra.
  - change (8 mod 8)%nat with 0%nat. rewrite Hcos7, Hsin7, Hcos0, Hsin0.
    right. unfold Rabs. rcases; lra.
Qed.

Lemma checkpoints_create now : checkpoints (create now) = createTrack.
Proof. reflexivity. Qed.

Lemma Rabs_minus_lt_le a b e : Rabs (a - b) < e -> Rabs (b - a) <= e.
Proof. unfold Rabs. rcases; lra. Qed.

(** After a frame that moved the cursor of a game on the track of
    [createTrack], the vehicle is within 3 of the checkpoint it has just
    registered, and the cursor points to the next one round the circle. *)
Lemma update_registers g0 f g1 :
  checkpoints g0 = createTrack ->
  (currentCheckpoint g0 < 8)%nat ->
  update g0 f = Some g1 ->
  currentCheckpoint g1 <> currentCheckpoint g0 ->
  exists cp0,
    nth_error createTrack (currentCheckpoint g0) = Some cp0 /\
    distanceTo (BurgerVehicle.getPosition (vehicle g1)) cp0 < 3 /\
    currentCheckpoint g1 = (S (currentCheckpoint g0) mod 8)%nat /\
    checkpoints g1 = createTrack /\
    vehicle g1 = BurgerVehicle.update (vehicle g0) (input f).
Proof.
  intros Hcps Hlt Hup Hmoved.
  destruct (neighbours_apart _ Hlt) as (cp0 & _ & Hcp0 & _).
  exists cp0. split; [exact Hcp0 |].
  unfold update in Hup.
  set (v1 := BurgerVehicle.update (vehicle g0) (input f)) in *.
  assert (Hcp : nth_error
                  (checkpoints (mk v1 (checkpoints g0) (currentCheckpoint g0)
                                   (lapCount g0) (startTime g0) (bestTime g0)))
                  (currentCheckpoint
                     (mk v1 (checkpoints g0) (currentCheckpoint g0)
                         (lapCount g0) (startTime g0) (bestTime g0)))
                = Some cp0).
  { cbn [checkpoints currentCheckpoint]. rewrite Hcps. exact Hcp0. }
  rewrite (checkCheckpoints_in_range _ _ _ cp0 Hcp) in Hup.
  cbn [checkpoints currentCheckpoint vehicle lapCount startTime bestTime]
    in Hup.
  rewrite Hcps, length_createTrack in Hup.
  destruct (Rlt_dec _ 3) as [Hd | Hd].
  - destruct (Nat.leb_spec 8 (S (currentCheckpoint g0))) as [Hwrap | Hnext];
      injection Hup as <-; cbn [vehicle currentCheckpoint checkpoints].
    + assert (H7 : S (currentCheckpoint g0) = 8%nat) by lia.
      rewrite H7, Nat.Div0.mod_same. auto.
    + rewrite Nat.mod_small by lia. auto.
  - injection Hup as <-. cbn [currentCheckpoint] in Hmoved. contradiction.
Qed.

(** X17: on the track of [createTrack] neighbouring checkpoints are more
    than 21 apart along x or along z, so after a frame that registers a
    checkpoint (the cursor moves) none of the next 50 frames can register
    the following one: they change nothing but the vehicle.  The
    hypotheses (the track, a vehicle inside the arena with its speed
    between the caps, the cursor below 8) hold in every state of the
    constructed game. *)
Theorem X17_fifty_frames_between_checkpoints :
  (forall (g0 : t) (f : Frame) (g1 : t) (fs : list Frame),
     checkpoints g0 = createTrack ->
     VehicleNotions.drivable (vehicle g0) ->
     (currentCheckpoint g0 < 8)%nat ->
     update g0 f = Some g1 ->
     currentCheckpoint g1 <> currentCheckpoint g0 ->
     (length fs <= 50)%nat ->
     run g1 fs
     = Some (withVehicle g1 (BurgerVehicle.run (vehicle g1) (inputs fs)))) /\
  (forall (now : R) (fs0 : list Frame) (g0 : t),
     run (create now) fs0 = Some g0 ->
     checkpoints g0 = createTrack /\
     VehicleNotions.drivable (vehicle g0) /\
     (currentCheckpoint g0 < 8)%nat).
Proof.
  split.
  - intros g0 f g1 fs Hcps Hdr Hin Hup Hmoved Hn.
    destruct (update_registers g0 f g1 Hcps Hin Hup Hmoved)
      as (cp0 & Hcp0 & Hd & Hnext & Hcps1 & Hv1).
    destruct (neighbours_apart _ Hin) as (cp0' & cp1 & Hcp0' & Hcp1 & Hapart).
    rewrite Hcp0 in Hcp0'. injection Hcp0' as <-.
    apply distanceTo_lt_3_axes in Hd. destruct Hd as [Hdx Hdz].
    unfold BurgerVehicle.getPosition in Hdx, Hdz.
    apply (far_checkpoint_run fs g1 cp1 (x cp0) (z cp0) 3).
    + rewrite Hv1. now apply VehicleMore.update_drivable.
    + rewrite Hcps1, Hnext. exact Hcp1.
    + now apply Rabs_minus_lt_le.
    + now apply Rabs_minus_lt_le.
    + apply VehicleFacts.INR_le_const in Hn. simpl in Hn.
      destruct Hapart; [left | right]; lra.
  - intros now fs0 g0 Hrun.
    destruct (run_lap_state fs0 (create now) (create_in_range now))
      as (g & Hg & Hcps & Hv & Hin & _).
    rewrite Hrun in Hg. injection Hg as <-.
    rewrite checkpoints_create in Hcps.
    rewrite Hcps, length_createTrack in Hin.
    split; [exact Hcps | split; [| exact Hin]].
    rewrite Hv. apply VehicleMore.reachable_drivable.
    apply VehicleFacts.reachable_run. constructor.
Qed.

Lemma parked_stays f :
  BurgerVehicle.coasting (input f) ->
  BurgerVehicle.position (BurgerVehicle.update parked (input f))
  = mkVector3 30 0.5 0.
Proof.
  intros Hc.
  destruct (VehicleFacts.coasting_handleInput parked (input f) Hc)
    as (_ & _ & Hs & _).
  specialize (Hs eq_refl).
  set (h := BurgerVehicle.handleInput parked (input f)) in *.
  assert (Hx : BurgerVehicle.movedX h = 30).
  { unfold BurgerVehicle.movedX. rewrite Hs. simpl. ring. }
  assert (Hz : BurgerVehicle.movedZ h = 0).
  { unfold BurgerVehicle.movedZ. rewrite Hs. simpl. ring. }
  unfold BurgerVehicle.update. fold h.
  rewrite VehicleFacts.position_applyPhysics_inside.
  - rewrite Hx, Hz. reflexivity.
  - rewrite Hx. unfold BurgerVehicle.boundary, Rabs. rcases; lra.
  - rewrite Hz, Rabs_R0. unfold BurgerVehicle.boundary. lra.
Qed.

Lemma X17_fifty_frames_between_checkpoints_witness :
  let g0 := mk parked createTrack 0 0 0 Infinity in
  let f := mkFrame BurgerVehicle.idle 1000 1000 in
  checkpoints g0 = createTrack /\
  VehicleNotions.drivable (vehicle g0) /\
  (currentCheckpoint g0 < 8)%nat /\
  exists g1,
    update g0 f = Some g1 /\
    currentCheckpoint g1 <> currentCheckpoint g0 /\
    run g1 [f]
    = Some (withVehicle g1 (BurgerVehicle.run (vehicle g1) (inputs [f]))).
Proof.
  cbn zeta.
  set (g0 := mk parked createTrack 0 0 0 Infinity).
  set (f := mkFrame BurgerVehicle.idle 1000 1000).
  assert (Hcps : checkpoints g0 = createTrack) by reflexivity.
  assert (Hdr : VehicleNotions.drivable (vehicle g0)).
  { unfold VehicleNotions.drivable, BurgerVehicle.speed_in_range.
    unfold BurgerVehicle.maxSpeed, BurgerVehicle.boundary. simpl.
    rewrite Rabs_R0. unfold Rabs. rcases; repeat split; lra. }
  assert (Hin : (currentCheckpoint g0 < 8)%nat) by (simpl; lia).
  split; [exact Hcps | split; [exact Hdr | split; [exact Hin |]]].
  destruct nth_error_createTrack_0 as (cp & Hcp & Hx & Hy & Hz).
  set (v1 := BurgerVehicle.update parked (input f)).
  assert (Hpos : BurgerVehicle.position v1 = mkVector3 30 0.5 0)
    by (apply parked_stays; split; reflexivity).
  exists (mk v1 createTrack 1 0 0 Infinity).
  assert (Hup : update g0 f = Some (mk v1 createTrack 1 0 0 Infinity)).
  { unfold update. fold v1.
    rewrite (checkCheckpoints_in_range
               (mk v1 (checkpoints g0) (currentCheckpoint g0) (lapCount g0)
                   (startTime g0) (bestTime g0)) _ _ cp Hcp).
    cbn [vehicle checkpoints currentCheckpoint lapCount startTime bestTime g0].
    rewrite length_createTrack. cbn [Nat.leb].
    destruct (Rlt_dec _ 3) as [_ | Hn]; [reflexivity |].
    exfalso. apply Hn, distanceTo_lt_3.
    unfold distanceToSquared, BurgerVehicle.getPosition. rewrite Hpos.
    cbn [x y z]. rewrite Hx, Hy, Hz. lra. }
  assert (Hmoved : currentCheckpoint (mk v1 createTrack 1 0 0 Infinity)
                   <> currentCheckpoint g0) by discriminate.
  split; [exact Hup | split; [exact Hmoved |]].
  apply (proj1 X17_fifty_frames_between_checkpoints g0 f _ [f]
           Hcps Hdr Hin Hup Hmoved).
  simpl. lia.
Defined.

End TrackMore.

Module ObstacleFacts.

Import Three Obstacles.

(** X19: given that [Math.random()] returns numbers in [[0, 1)],
    [createObstacles] makes 5 obstacles on mobile and 10 otherwise, each at
    height 0.5 and at a distance from the origin in [[29, 31)], hence
    strictly inside the road, whose edges are at [trackRadius - trackWidth/2]
    and [trackRadius + trackWidth/2]. *)
Theorem X19_obstacles_on_road :
  forall (isMobile : bool) (random : nat -> R),
    (forall k, 0 <= random k < 1) ->
    length (createObstacles isMobile random)
      = (if isMobile then 5%nat else 10%nat) /\
    Forall (fun o =>
              y o = 0.5 /\
              29 * 29 <= x o * x o + z o * z o < 31 * 31 /\
              Rsqr (RacingGame.trackRadius - trackWidth / 2)
                < x o * x o + z o * z o
                < Rsqr (RacingGame.trackRadius + trackWidth / 2))
           (createObstacles isMobile random).
Proof.
  intros isMobile random Hrand. unfold createObstacles. split.
  - rewrite length_map, length_seq. reflexivity.
  - apply Forall_map, Forall_forall. intros i _.
    unfold createObstacle. cbn [x y z].
    set (a := random (2 * i)%nat * PI * 2).
    set (r := RacingGame.trackRadius + (random (2 * i + 1)%nat - 0.5) * 2).
    assert (Hr : 29 <= r < 31).
    { subst r. unfold RacingGame.trackRadius.
      pose proof (Hrand (2 * i + 1)%nat). lra. }
    pose proof (sin2_cos2 a) as Hsc. unfold Rsqr in Hsc.
    replace (cos a * r * (cos a * r) + sin a * r * (sin a * r))
      with (r * r * (sin a * sin a + cos a * cos a)) by ring.
    rewrite Hsc, Rmult_1_r.
    unfold Rsqr, RacingGame.trackRadius, trackWidth.
    split; [reflexivity |]. split; split; nra.
Qed.

Lemma X19_obstacles_on_road_witness :
  (forall k : nat, 0 <= (fun _ : nat => 0.5) k < 1) /\
  length (createObstacles true (fun _ => 0.5)) = 5%nat.
Proof.
  assert (H : forall k : nat, 0 <= (fun _ : nat => 0.5) k < 1)
    by (intros k; cbn beta; lra).
  split; [exact H |].
  exact (proj1 (X19_obstacles_on_road true (fun _ => 0.5) H)).
Defined.

End ObstacleFacts.

Module SwordMore.

Import Three Sword SwordCalls SwordFacts.

(** *** Collecting at most once *)

Lemma results_collected cs : forall s,
  collected s = true -> Forall (fun b => b = false) (results s cs).
Proof.
  induction cs as [| c rest IH]; intros s H; simpl; [constructor |].
  pose proof (step_collected s c H) as Hstep.
  destruct c as [| p r |]; simpl in Hstep |- *.
  - rewrite Hstep. now apply IH.
  - rewrite (checkCollision_collected s p r H). simpl.
    constructor; [reflexivity | now apply IH].
  - rewrite Hstep. now apply IH.
Qed.

Lemma checkCollision_true s p r :
  snd (checkCollision s p r) = true ->
  collected (fst (checkCollision s p r)) = true.
Proof.
  unfold checkCollision. destruct (collected s); [discriminate |].
  destruct (Rlt_dec _ _); [reflexivity | discriminate].
Qed.

(** X20: over any sequence of [update], [checkCollision] and [dispose]
    calls on any sword, [checkCollision] returns true at most once, and
    every call after that one returns false. *)
Theorem X20_collected_at_most_once :
  forall (s : t) (cs : list call),
    (count_occ bool_dec (results s cs) true <= 1)%nat /\
    (forall before after,
       results s cs = before ++ true :: after ->
       Forall (fun b => b = false) before /\
       Forall (fun b => b = false) after).
Proof.
  intros s cs.
  assert (H : forall cs s,
            (count_occ bool_dec (results s cs) true <= 1)%nat /\
            (forall before after,
               results s cs = before ++ true :: after ->
               Forall (fun b => b = false) before /\
               Forall (fun b => b = false) after)).
  { clear. induction cs as [| c rest IH]; intros s.
    - simpl. split; [lia |]. intros [|] after H; discriminate.
    - destruct c as [| p r |]; cbn [results step]; try apply IH.
      destruct (snd (checkCollision s p r)) eqn:Hb.
      + pose proof (results_collected rest _ (checkCollision_true s p r Hb))
          as Hall.
        split.
        * rewrite count_occ_cons_eq by reflexivity.
          assert (H0 : count_occ bool_dec
                         (results (fst (checkCollision s p r)) rest) true
                       = 0%nat).
          { apply count_occ_not_In. intros Hin.
            rewrite Forall_forall in Hall. apply Hall in Hin. discriminate. }
          rewrite H0. lia.
        * intros before after Heq.
          destruct before as [| b before]; simpl in Heq.
          -- injection Heq as <-. split; [constructor | exact Hall].
          -- injection Heq as <- Heq. exfalso.
             rewrite Forall_forall in Hall.
             assert (Hin : In true
                             (results (fst (checkCollision s p r)) rest))
               by (rewrite Heq; apply in_or_app; right; now left).
             apply Hall in Hin. discriminate.
      + destruct (IH (fst (checkCollision s p r))) as [Hc Hsplit].
        split.
        * rewrite count_occ_cons_neq by discriminate. exact Hc.
        * intros before after Heq.
          destruct before as [| b before]; simpl in Heq; [discriminate |].
          injection Heq as <- Heq.
          destruct (Hsplit before after Heq) as [Hb1 Ha].
          split; [constructor; [reflexivity | exact Hb1] | exact Ha]. }
  apply H.
Qed.

Lemma distanceTo_self_lt (p : Vector3) (e : R) :
  0 < e -> distanceTo p p < e.
Proof.
  intros He. unfold distanceTo, distanceToSquared. cbn zeta.
  replace ((x p - x p) * (x p - x p) + (y p - y p) * (y p - y p)
           + (z p - z p) * (z p - z p)) with 0 by ring.
  rewrite sqrt_0. exact He.
Qed.

Lemma X20_collected_at_most_once_witness :
  let p := mkVector3 1 0.5 2 in
  let s := create GOLD p 0 in
  let cs := [CheckCollision p 0.4; Update; CheckCollision p 0.4] in
  results s cs = [] ++ true :: [false] /\
  Forall (fun b => b = false) [false].
Proof.
  cbn zeta.
  set (p := mkVector3 1 0.5 2).
  set (s := create GOLD p 0).
  assert (H1 : checkCollision s p 0.4 = (collect s, true)).
  { rewrite checkCollision_uncollected by reflexivity.
    destruct (Rlt_dec _ _) as [_ | Hn]; [reflexivity |].
    exfalso. apply Hn. apply distanceTo_self_lt. lra. }
  assert (Hres : results s [CheckCollision p 0.4; Update; CheckCollision p 0.4]
                 = [] ++ true :: [false]).
  { cbn [results step]. rewrite H1. cbn [fst snd].
    rewrite (update_collected (collect s) eq_refl).
    rewrite (checkCollision_collected (collect s) p 0.4 eq_refl).
    reflexivity. }
  split; [exact Hres |].
  exact (proj2 (proj2 (X20_collected_at_most_once s _) [] [false] Hres)).
Defined.

(** *** The floating animation *)

Lemma step_fields s c :
  type (step s c) = type s /\ position (step s c) = position s /\
  x (meshPosition (step s c)) = x (meshPosition s) /\
  z (meshPosition (step s c)) = z (meshPosition s).
Proof.
  destruct c as [| p r |]; simpl.
  - unfold update. destruct (collected s); simpl; auto.
  - unfold checkCollision. destruct (collected s); simpl; auto.
    destruct (Rlt_dec _ _); simpl; auto.
  - unfold dispose. destruct (negb (collected s)); simpl; auto.
Qed.

Lemma step_bob s c :
  Rabs (y (meshPosition s) - y (position s)) <= 0.15 ->
  Rabs (y (meshPosition (step s c)) - y (position (step s c))) <= 0.15.
Proof.
  intros H. destruct c as [| p r |]; simpl.
  - unfold update. destruct (collected s); simpl; [exact H |].
    set (a := floatOffset s + floatSpeed).
    pose proof (SIN_bound a) as Hs.
    replace (y (position s) + sin a * 0.15 - y (position s))
      with (sin a * 0.15) by ring.
    apply Rabs_le. lra.
  - unfold checkCollision. destruct (collected s); simpl; [exact H |].
    destruct (Rlt_dec _ _); simpl; exact H.
  - unfold dispose. destruct (negb (collected s)); simpl; exact H.
Qed.

Lemma reachable_bob s :
  reachable s ->
  x (meshPosition s) = x (position s) /\
  z (meshPosition s) = z (position s) /\
  Rabs (y (meshPosition s) - y (position s)) <= 0.15.
Proof.
  induction 1 as [ty pos rnd | s c Hr IH].
  - simpl. rewrite Rminus_diag, Rabs_R0. repeat split; lra.
  - destruct IH as (Hx & Hz & Hy).
    destruct (step_fields s c) as (_ & Hp & Hmx & Hmz).
    rewrite Hmx, Hmz, Hp. repeat split; try assumption.
    rewrite <- Hp. now apply step_bob.
Qed.

Lemma run_fields cs : forall s,
  type (run s cs) = type s /\ position (run s cs) = position s.
Proof.
  induction cs as [| c rest IH]; intros s; simpl; [split; reflexivity |].
  destruct (IH (step s c)) as [Ht Hp].
  destruct (step_fields s c) as (Ht' & Hp' & _).
  split; congruence.
Qed.

(** X21: a sword never moves sideways and never changes its type or base
    position: after any calls the mesh has the x and z of the base position
    it was constructed at, and its height stays within 0.15 of the base
    height. *)
Theorem X21_sword_bobs_in_place :
  forall s : t, reachable s ->
    x (meshPosition s) = x (position s) /\
    z (meshPosition s) = z (position s) /\
    Rabs (y (meshPosition s) - y (position s)) <= 0.15 /\
    (forall cs, type (run s cs) = type s /\ position (run s cs) = position s).
Proof.
  intros s Hr. destruct (reachable_bob s Hr) as (Hx & Hz & Hy).
  split; [exact Hx | split; [exact Hz | split; [exact Hy |]]].
  intros cs. apply run_fields.
Qed.

Lemma X21_sword_bobs_in_place_witness :
  let s := step (create IRON (mkVector3 4 1 (-3)) 0.25) Update in
  reachable s /\ x (meshPosition s) = 4 /\ z (meshPosition s) = -3.
Proof.
  cbn zeta.
  assert (Hr : reachable (step (create IRON (mkVector3 4 1 (-3)) 0.25) Update))
    by (repeat constructor).
  destruct (X21_sword_bobs_in_place _ Hr) as (Hx & Hz & _).
  split; [exact Hr | split].
  - rewrite Hx. reflexivity.
  - rewrite Hz. reflexivity.
Defined.

Lemma sqrt_sq_Rabs a : sqrt (a * a) = Rabs a.
Proof. rewrite <- sqrt_Rsqr_abs. reflexivity. Qed.

(** X22: a player of radius above -0.35 (so every real player) standing at
    the sword's base position collects an uncollected sword, whatever the
    phase of the floating animation. *)
Theorem X22_pickup_at_base_position :
  forall (s : t) (playerRadius : R),
    reachable s -> collected s = false -> -0.35 < playerRadius ->
    checkCollision s (position s) playerRadius = (collect s, true).
Proof.
  intros s r Hr Hc Hrad.
  rewrite (checkCollision_uncollected s (position s) r Hc).
  destruct (Rlt_dec _ _) as [_ | Hn]; [reflexivity |].
  exfalso. apply Hn.
  destruct (reachable_bob s Hr) as (Hx & Hz & Hy).
  unfold distanceTo, distanceToSquared. cbn zeta. rewrite Hx, Hz.
  replace ((x (position s) - x (position s)) * (x (position s) - x (position s))
           + (y (meshPosition s) - y (position s))
             * (y (meshPosition s) - y (position s))
           + (z (position s) - z (position s)) * (z (position s) - z (position s)))
    with ((y (meshPosition s) - y (position s))
          * (y (meshPosition s) - y (position s))) by ring.
  rewrite sqrt_sq_Rabs. lra.
Qed.

Lemma X22_pickup_at_base_position_witness :
  let s := step (create IRON (mkVector3 4 1 (-3)) 0.25) Update in
  reachable s /\ collected s = false /\ -0.35 < 0.4 /\
  checkCollision s (position s) 0.4 = (collect s, true).
Proof.
  cbn zeta.
  assert (Hr : reachable (step (create IRON (mkVector3 4 1 (-3)) 0.25) Update))
    by (repeat constructor).
  assert (Hc : collected (step (create IRON (mkVector3 4 1 (-3)) 0.25) Update)
               = false) by reflexivity.
  assert (Hrad : -0.35 < 0.4) by lra.
  split; [exact Hr | split; [exact Hc | split; [exact Hrad |]]].
  exact (X22_pickup_at_base_position _ 0.4 Hr Hc Hrad).
Defined.

Lemma update_uncollected s :
  collected s = false ->
  collected (update s) = false /\
  floatOffset (update s) = floatOffset s + floatSpeed /\
  meshRotationZ (update s) = meshRotationZ s + rotationSpeed /\
  y (meshPosition (update s))
    = y (position s) + sin (floatOffset s + floatSpeed) * 0.15 /\
  position (update s) = position s.
Proof. intros H. unfold update. rewrite H. simpl. auto. Qed.

(** X23: [n] animation frames of an uncollected sword leave it
    uncollected, advance the float phase by [n * 0.001] and the spin by
    [n * 0.03], and put the mesh at the base height plus 0.15 times the sine
    of the new phase. *)
Theorem X23_animation_after_n_updates :
  forall (n : nat) (s : t),
    collected s = false ->
    let s' := run s (repeat Update n) in
    collected s' = false /\
    floatOffset s' = floatOffset s + INR n * floatSpeed /\
    meshRotationZ s' = meshRotationZ s + INR n * rotationSpeed /\
    ((0 < n)%nat ->
       y (meshPosition s')
       = y (position s) + sin (floatOffset s + INR n * floatSpeed) * 0.15).
Proof.
  induction n as [| n IH]; intros s Hc.
  - simpl. repeat split; try lra; try assumption. intros H; lia.
  - cbn zeta. cbn [repeat run step].
    destruct (update_uncollected s Hc) as (Hc1 & Hf1 & Hr1 & Hy1 & Hp1).
    destruct (IH (update s) Hc1) as (Hc' & Hf' & Hr' & Hy').
    cbn zeta in Hc', Hf', Hr', Hy'. rewrite S_INR.
    split; [exact Hc' |]. split; [rewrite Hf', Hf1; ring |].
    split; [rewrite Hr', Hr1; ring |].
    intros _. destruct n as [| n].
    + simpl. rewrite Hy1. f_equal. f_equal. f_equal. ring.
    + rewrite Hy' by lia. rewrite Hp1, Hf1. f_equal. f_equal. f_equal. ring.
Qed.

Lemma X23_animation_after_n_updates_witness :
  let s := create STEEL (mkVector3 0 1 0) 0 in
  collected s = false /\
  meshRotationZ (run s (repeat Update 100))
    = meshRotationZ s + INR 100 * rotationSpeed.
Proof.
  cbn zeta. split; [reflexivity |].
  exact (proj1 (proj2 (proj2 (X23_animation_after_n_updates 100
                                (create STEEL (mkVector3 0 1 0) 0) eq_refl)))).
Defined.

(** *** The scene and [dispose] *)

Lemma step_scene s c :
  (collected s = true -> meshInScene s = false) ->
  collected (step s c) = true -> meshInScene (step s c) = false.
Proof.
  intros H. destruct c as [| p r |]; simpl.
  - unfold update. destruct (collected s) eqn:Hc; simpl; [auto | discriminate].
  - unfold checkCollision. destruct (collected s) eqn:Hc; simpl; [auto |].
    destruct (Rlt_dec _ _); simpl; [reflexivity | congruence].
  - unfold dispose. destruct (collected s) eqn:Hc; simpl; auto.
Qed.

(** X24: a collected sword is never in the scene.  [dispose] takes an
    uncollected sword out of the scene and does nothing else: it is
    idempotent and leaves [collected] as it was, so a disposed sword that
    was not collected is still collected by a later [checkCollision] within
    range. *)
Theorem X24_scene_and_dispose :
  (forall s, reachable s -> collected s = true -> meshInScene s = false) /\
  (forall s, reachable s -> meshInScene (dispose s) = false) /\
  (forall s, dispose (dispose s) = dispose s /\
             collected (dispose s) = collected s) /\
  (forall s p r,
     collected s = false ->
     distanceTo (meshPosition s) p < r + 0.5 ->
     checkCollision (dispose s) p r = (collect s, true)).
Proof.
  assert (Hscene : forall s, reachable s ->
                     collected s = true -> meshInScene s = false).
  { induction 1 as [ty pos rnd | s c Hr IH]; [discriminate |].
    now apply step_scene. }
  split; [exact Hscene | split; [| split]].
  - intros s Hr. unfold dispose.
    destruct (collected s) eqn:Hc; simpl; [now apply Hscene | reflexivity].
  - intros s. unfold dispose.
    destruct (collected s) eqn:Hc; simpl; rewrite ?Hc; simpl; auto.
  - intros s p r Hc Hd.
    unfold checkCollision, dispose. rewrite Hc. simpl. rewrite ?Hc.
    destruct (Rlt_dec _ _) as [_ | Hn]; [reflexivity | contradiction].
Qed.

Lemma X24_scene_and_dispose_witness :
  let p := mkVector3 1 0.5 2 in
  let s := create GOLD p 0 in
  reachable s /\ collected s = false /\
  distanceTo (meshPosition s) p < 0.4 + 0.5 /\
  meshInScene (dispose s) = false /\
  checkCollision (dispose s) p 0.4 = (collect s, true).
Proof.
  cbn zeta.
  set (p := mkVector3 1 0.5 2).
  set (s := create GOLD p 0).
  assert (Hr : reachable s) by constructor.
  assert (Hc : collected s = false) by reflexivity.
  assert (Hd : distanceTo (meshPosition s) p < 0.4 + 0.5)
    by (apply distanceTo_self_lt; lra).
  split; [exact Hr | split; [exact Hc | split; [exact Hd | split]]].
  - exact (proj1 (proj2 X24_scene_and_dispose) s Hr).
  - exact (proj2 (proj2 (proj2 X24_scene_and_dispose)) s p 0.4 Hc Hd).
Defined.

(** X25: a player radius of -0.5 or less collects nothing: the collect
    distance is then not positive and no distance is below it, so
    [checkCollision] returns false and leaves the sword as it is, even with
    the player exactly on the sword. *)
Theorem X25_nonpositive_collect_distance :
  forall (s : t) (p : Vector3) (playerRadius : R),
    playerRadius + 0.5 <= 0 ->
    checkCollision s p playerRadius = (s, false).
Proof.
  intros s p r Hr. unfold checkCollision.
  destruct (collected s); [reflexivity |].
  destruct (Rlt_dec _ _) as [Hd | _]; [| reflexivity].
  exfalso. pose proof (sqrt_pos (distanceToSquared (meshPosition s) p)) as H.
  unfold distanceTo in Hd. lra.
Qed.

Lemma X25_nonpositive_collect_distance_witness :
  let p := mkVector3 1 0.5 2 in
  -0.5 + 0.5 <= 0 /\
  checkCollision (create GOLD p 0) p (-0.5) = (create GOLD p 0, false).
Proof.
  cbn zeta.
  assert (H : -0.5 + 0.5 <= 0) by lra.
  split; [exact H |].
  exact (X25_nonpositive_collect_distance _ _ (-0.5) H).
Defined.

End SwordMore.

Module SwordMeshFacts.

Import Sword SwordMesh.

(** X26: the sword handed to the player is built from the same four parts
    as the one lying in the world: for every sword and device class,
    [createMeshForPlayer] and the constructor produce the same geometries,
    materials and offsets. *)
Theorem X26_player_mesh_matches_world_mesh :
  forall (s : t) (isMobile : bool),
    createMeshForPlayer s isMobile = constructorParts (type s) isMobile.
Proof. intros s isMobile. reflexivity. Qed.

(** X27: for every sword type the parts fit together along the sword's
    axis: the blade runs from 0 up to [getHeight], the handle from
    [-0.4 * bladeLength] up to 0 where it meets the blade, the pommel is
    centred on the lower end of the handle, and the crossguard lies within
    the blade's span and is three times as wide as the blade.  So
    [getHeight] is the length of the blade alone. *)
Theorem X27_sword_parts_fit_together :
  forall (s : t) (isMobile : bool),
    exists blade crossguard handle pommel,
      createMeshForPlayer s isMobile = [blade; crossguard; handle; pommel] /\
      bottom blade = 0 /\ top blade = getHeight s /\
      top handle = 0 /\ bottom handle = - 0.4 * getHeight s /\
      positionY pommel = bottom handle /\
      0 < bottom crossguard /\ top crossguard < top blade /\
      (exists w h d w' h' d',
         geometry blade = BoxGeometry w h d /\
         geometry crossguard = BoxGeometry w' h' d' /\ w' = 3 * w).
Proof.
  intros s isMobile.
  eexists; eexists; eexists; eexists.
  split; [reflexivity |].
  unfold bottom, top, getHeight. cbn [positionY geometry halfHeight].
  destruct (type s); cbn [SWORD_CONFIGS bladeLength bladeWidth];
    (repeat split; try lra);
    (do 6 eexists; split; [reflexivity | split; [reflexivity | lra]]).
Qed.

End SwordMeshFacts.
